(** * beaker-core crawler and search: a shallow embedding

    The development follows the JavaScript sources:
    - [crawler/util.js]   ([doCrawl], [doCheckpoint], [getMatchingChangesInOrder]),
    - [crawler/posts.js]  ([crawlSite], [get]),
    - [crawler/search.js] ([listSuggestions], [listSearchResults]).

    SQL tables are lists of rows (a table has no implicit key, so duplicates
    are representable), [db.run] statements are total functions on the
    tables, and every write is also appended to a log so that the order of
    the effects of a run can be stated. *)

From Stdlib Require Import ZArith QArith Qround Lia Ascii.
From stdpp Require Import base tactics option strings sorting numbers list.

Local Open Scope Z_scope.
Local Open Scope list_scope.

(** ** JavaScript array helpers *)

Module Js.

(** [Array.prototype.findIndex]: index of the first element satisfying [p],
    [-1] when there is none. *)
Fixpoint findIndex {A} (p : A → bool) (l : list A) : Z :=
  match l with
  | [] => -1
  | x :: l' => if p x then 0 else
                 let i := findIndex p l' in
                 if i =? -1 then -1 else i + 1
  end.

(** [list.splice(i, 1)] for an index [0 <= i]. *)
Definition splice1 {A} (i : Z) (l : list A) : list A := delete (Z.to_nat i) l.

(** [list.push(x)]. *)
Definition push {A} (l : list A) (x : A) : list A := l ++ [x].

(** [list.slice(0, n)]: a negative [n] counts from the end. *)
Definition slice0 {A} (n : Z) (l : list A) : list A :=
  if 0 <=? n then take (Z.to_nat n) l
  else take (Z.to_nat (Z.of_nat (length l) + n)) l.

(** [Array.prototype.sort (cmp)]: [a] may stay before [b] when
    [cmp a b <= 0]. *)
Definition keeps_order {A} (cmp : A → A → Z) : relation A := λ a b, cmp a b ≤ 0.

#[export] Instance keeps_order_dec {A} (cmp : A → A → Z) a b :
  Decision (keeps_order cmp a b).
Proof. unfold keeps_order. apply _. Defined.

Definition sort {A} (cmp : A → A → Z) (l : list A) : list A :=
  merge_sort (keeps_order cmp) l.

(** [Array.prototype.filter] with a boolean callback. *)
Definition filter {A} (p : A → bool) (l : list A) : list A := List.filter p l.

(** [String.prototype.includes]. *)
Fixpoint includes (s q : string) : bool :=
  String.prefix q s ||
  match s with
  | EmptyString => false
  | String _ s' => includes s' q
  end.

Definition endsWith (s suffix : string) : bool :=
  (String.length suffix <=? String.length s)%nat &&
  String.eqb
    (String.substring (String.length s - String.length suffix)
       (String.length suffix) s)
    suffix.

Definition lower_ascii (c : ascii) : ascii :=
  let n := Ascii.N_of_ascii c in
  if ((65 <=? n) && (n <=? 90))%N then Ascii.ascii_of_N (n + 32) else c.

(** [String.prototype.toLowerCase], exact on strings of ASCII characters:
    the letters [A] to [Z] are mapped and every other character is left as
    it is (the platform maps the other letters by the rules of Unicode,
    which can also change the length of a string). *)
Fixpoint toLowerCase (s : string) : string :=
  match s with
  | EmptyString => EmptyString
  | String c s' => String (lower_ascii c) (toLowerCase s')
  end.

(** [s.replace(/[chars]/g, ' ')]. *)
Fixpoint replace_chars (chars : list ascii) (s : string) : string :=
  match s with
  | EmptyString => EmptyString
  | String c s' =>
      String (if bool_decide (c ∈ chars) then " "%char else c)
             (replace_chars chars s')
  end.

(** [_.uniqWith(array, comparator)]: the first of several equivalent
    elements is kept. *)
Fixpoint uniqWith_from {A} (comparator : A → A → bool) (seen l : list A) : list A :=
  match l with
  | [] => []
  | x :: l' =>
      if existsb (λ y, comparator y x) seen then uniqWith_from comparator seen l'
      else x :: uniqWith_from comparator (seen ++ [x]) l'
  end.

Definition uniqWith {A} (l : list A) (comparator : A → A → bool) : list A :=
  uniqWith_from comparator [] l.

(** JavaScript numbers, as far as the code can tell them apart: a finite
    double is a rational. *)
Inductive number := NaN | NegInfinity | Infinity | Finite (q : Q).

Definition of_Z (z : Z) : number := Finite (inject_Z z).

(** [ToNumber] of an optional numeric argument: [undefined] is [NaN]. *)
Definition ToNumber (v : option number) : number :=
  match v with
  | None => NaN
  | Some n => n
  end.

Definition isNaN (n : number) : bool :=
  match n with NaN => true | _ => false end.

Definition Math_floor (n : number) : number :=
  match n with
  | Finite q => Finite (inject_Z (Qfloor q))
  | _ => n
  end.

Definition Math_max (a b : number) : number :=
  match a, b with
  | NaN, _ | _, NaN => NaN
  | Infinity, _ | _, Infinity => Infinity
  | NegInfinity, x | x, NegInfinity => x
  | Finite p, Finite q => if Qle_bool p q then Finite q else Finite p
  end.

Definition Math_min (a b : number) : number :=
  match a, b with
  | NaN, _ | _, NaN => NaN
  | NegInfinity, _ | _, NegInfinity => NegInfinity
  | Infinity, x | x, Infinity => x
  | Finite p, Finite q => if Qle_bool p q then Finite p else Finite q
  end.

(** [a === b] on numbers. *)
Definition strict_eq (a b : number) : bool :=
  match a, b with
  | Finite p, Finite q => Qeq_bool p q
  | Infinity, Infinity | NegInfinity, NegInfinity => true
  | _, _ => false
  end.

End Js.

(** ** crawler/util.js : change events *)

(** Modelled from the spec: the type of a change event is one of [add],
    [change] and [del] (the history stream that produces the events is not
    part of the sources; the crawler only asks whether the type is [del]). *)
Inductive ChangeType := add | change | del.

#[export] Instance ChangeType_eq_dec : EqDecision ChangeType.
Proof. solve_decision. Defined.

Record ChangeEvent := mkChange {
  name : string;
  type : ChangeType;
  version : Z
}.

#[export] Instance ChangeEvent_eq_dec : EqDecision ChangeEvent.
Proof. solve_decision. Defined.

(** A [RegExp] without the [g] or [y] flag: [regex.test] is a pure
    predicate on the name. *)
Definition RegExp := string → bool.

Definition getMatchingChangesInOrder (changes : list ChangeEvent) (regex : RegExp)
  : list ChangeEvent :=
  fold_left
    (λ list c,
       if regex (name c) then
         let i := Js.findIndex (λ c2, String.eqb (name c2) (name c)) list in
         let list := if negb (i =? -1) then Js.splice1 i list else list in
         Js.push list c
       else list)
    changes [].

(** The resolved change set in the words of the specification: an event
    survives when its name matches the pattern and no later event carries
    the same name. *)
Fixpoint latest_occurrences (regex : RegExp) (changes : list ChangeEvent)
  : list ChangeEvent :=
  match changes with
  | [] => []
  | c :: rest =>
      if regex (name c) && bool_decide (name c ∉ name <$> rest)
      then c :: latest_occurrences regex rest
      else latest_occurrences regex rest
  end.

(** ** The profile database and the event emitters *)

Record CrawlSourceRecord := mkSource {
  src_id : Z;
  src_url : string
}.

(** A row of [crawl_sources_meta]. *)
Record MetaRow := mkMeta {
  meta_crawlDataset : string;
  meta_crawlDatasetVersion : Z;
  meta_crawlSourceId : Z;
  meta_crawlSourceVersion : Z;
  meta_updatedAt : Z
}.

(** A row of [crawl_posts]. *)
Record PostRow := mkPostRow {
  post_crawlSourceId : Z;
  post_pathname : string;
  post_crawledAt : Z;
  post_body : string;
  post_createdAt : Js.number;
  post_updatedAt : Js.number
}.

(** A row of [crawl_followgraph]. *)
Record FollowEdge := mkFollow {
  fg_crawlSourceId : Z;
  fg_destUrl : string
}.

(** The statements the crawler passes to [db.run]. *)
Inductive Sql :=
| DeleteMeta (crawlDataset : string) (crawlSourceId : Z)
| InsertMeta (row : MetaRow)
| DeletePostsOfSource (crawlSourceId : Z)
| DeletePost (crawlSourceId : Z) (pathname : string)
| UpdatePost (crawledAt : Z) (body : string) (createdAt updatedAt : Js.number)
             (crawlSourceId : Z) (pathname : string)
| InsertPost (row : PostRow).

Inductive Event :=
| CrawlDatasetStart (sourceUrl crawlDataset : string) (start end_ : Z)
| CrawlDatasetProgress (sourceUrl crawlDataset : string) (progress numUpdates : Z)
| CrawlDatasetFinish (sourceUrl crawlDataset : string) (start end_ : Z)
| PostRemoved (sourceUrl : string)
| PostUpdated (sourceUrl : string)
| PostAdded (sourceUrl : string).

Inductive Effect :=
| Run (stmt : Sql)
| Emit (event : Event).

(** The tables, the wall clock read by [Date.now()], and the effects
    performed so far, oldest first. *)
Record World := mkWorld {
  crawl_sources : list CrawlSourceRecord;
  crawl_sources_meta : list MetaRow;
  crawl_posts : list PostRow;
  crawl_followgraph : list FollowEdge;
  clock : Z;
  log : list Effect
}.

Definition set_meta (t : list MetaRow) (w : World) : World :=
  mkWorld (crawl_sources w) t (crawl_posts w) (crawl_followgraph w) (clock w) (log w).

Definition set_posts (t : list PostRow) (w : World) : World :=
  mkWorld (crawl_sources w) (crawl_sources_meta w) t (crawl_followgraph w) (clock w) (log w).

Definition set_clock (now : Z) (w : World) : World :=
  mkWorld (crawl_sources w) (crawl_sources_meta w) (crawl_posts w)
          (crawl_followgraph w) now (log w).

Definition record (e : Effect) (w : World) : World :=
  mkWorld (crawl_sources w) (crawl_sources_meta w) (crawl_posts w)
          (crawl_followgraph w) (clock w) (log w ++ [e]).

Definition Date_now (w : World) : Z := clock w.

Definition meta_key (crawlDataset : string) (crawlSourceId : Z) (r : MetaRow) : bool :=
  String.eqb (meta_crawlDataset r) crawlDataset && (meta_crawlSourceId r =? crawlSourceId).

Definition post_key (crawlSourceId : Z) (pathname : string) (r : PostRow) : bool :=
  (post_crawlSourceId r =? crawlSourceId) && String.eqb (post_pathname r) pathname.

(** What a statement does to the tables. *)
Definition db_exec (stmt : Sql) (w : World) : World :=
  match stmt with
  | DeleteMeta ds sid =>
      set_meta (List.filter (λ r, negb (meta_key ds sid r)) (crawl_sources_meta w)) w
  | InsertMeta row =>
      set_meta (crawl_sources_meta w ++ [row]) w
  | DeletePostsOfSource sid =>
      set_posts (List.filter (λ r, negb (post_crawlSourceId r =? sid)) (crawl_posts w)) w
  | DeletePost sid path =>
      set_posts (List.filter (λ r, negb (post_key sid path r)) (crawl_posts w)) w
  | UpdatePost crawledAt body createdAt updatedAt sid path =>
      set_posts
        (List.map (λ r, if post_key sid path r
                        then mkPostRow (post_crawlSourceId r) (post_pathname r)
                                       crawledAt body createdAt updatedAt
                        else r)
                  (crawl_posts w)) w
  | InsertPost row =>
      set_posts (crawl_posts w ++ [row]) w
  end.

(** [db.run(stmt)] *)
Definition db_run (stmt : Sql) (w : World) : World :=
  record (Run stmt) (db_exec stmt w).

(** [emitter.emit(event)] *)
Definition emit (e : Event) (w : World) : World := record (Emit e) w.

(** [db.get] of the checkpoint query of [doCrawl]: the first row of
    [crawl_sources_meta] for the source and the dataset. *)
Definition db_get_meta (crawlSourceId : Z) (crawlDataset : string) (w : World)
  : option MetaRow :=
  List.find (meta_key crawlDataset crawlSourceId) (crawl_sources_meta w).

(** An [async] function either resolves or rejects; what it wrote before
    stays written in both cases. *)
Inductive Outcome :=
| Resolved (w : World)
| Rejected (w : World).

Definition world_of (o : Outcome) : World :=
  match o with Resolved w | Rejected w => w end.

(** ** crawler/util.js : the orchestrator *)

(** The archive as the crawler uses it: its url, the version reported by
    [getArchiveInfo] (absent when there is no info), the change log
    [history({start, end})] ([None]: the stream fails or times out) and
    [pda.readFile] ([None]: the read throws). *)
Record InternalDatArchive := mkArchive {
  archive_url : string;
  archive_info : option Z;
  archive_history : Z → Z → option (list ChangeEvent);
  archive_readFile : string → option string
}.

Definition doCheckpoint (crawlDataset : string) (crawlDatasetVersion : Z)
    (crawlSource : CrawlSourceRecord) (crawlSourceVersion : Z) (w : World) : World :=
  let w := db_run (DeleteMeta crawlDataset (src_id crawlSource)) w in
  db_run (InsertMeta (mkMeta crawlDataset crawlDatasetVersion (src_id crawlSource)
                             crawlSourceVersion (Date_now w))) w.

Definition emitProgressEvent (sourceUrl crawlDataset : string) (progress numUpdates : Z)
    (w : World) : World :=
  emit (CrawlDatasetProgress sourceUrl crawlDataset progress numUpdates) w.

(** The handler receives [{changes, resetRequired}]. *)
Definition Handler := list ChangeEvent → bool → World → Outcome.

Definition doCrawl (archive : InternalDatArchive) (crawlSource : CrawlSourceRecord)
    (crawlDataset : string) (crawlDatasetVersion : Z) (handlerFn : Handler)
    (w : World) : Outcome :=
  (* fetch current crawl state *)
  let resetRequired := false in
  let state := db_get_meta (src_id crawlSource) crawlDataset w in
  let '(resetRequired, state) :=
    match state with
    | Some st =>
        if negb (meta_crawlDatasetVersion st =? crawlDatasetVersion)
        then (true, None) else (resetRequired, state)
    | None => (resetRequired, state)
    end in
  let crawlSourceVersion :=
    match state with
    | Some st => meta_crawlSourceVersion st
    | None => 0
    end in
  (* fetch current archive version *)
  let version := match archive_info archive with Some v => v | None => 0 end in
  (* fetch change log *)
  let start := crawlSourceVersion + 1 in
  let end_ := version + 1 in
  match archive_history archive start end_ with
  | None => Rejected w
  | Some changes =>
      let w := emit (CrawlDatasetStart (archive_url archive) crawlDataset start end_) w in
      (* handle changes *)
      match handlerFn changes resetRequired w with
      | Rejected w => Rejected w
      | Resolved w =>
          (* final checkpoint *)
          let w := doCheckpoint crawlDataset crawlDatasetVersion crawlSource version w in
          Resolved
            (emit (CrawlDatasetFinish (archive_url archive) crawlDataset start end_) w)
      end
  end.

(** ** crawler/posts.js *)

Definition TABLE_VERSION : Z := 1.

(** [/^\/data\/feed\/([^/]+)\.json$/i] *)
Definition JSON_PATH_REGEX : RegExp := λ s,
  let l := Js.toLowerCase s in
  String.prefix "/data/feed/" l &&
  (let rest := String.substring 11 (String.length l - 11) l in
   negb (Js.includes rest "/") && Js.endsWith rest ".json" &&
   (5 <? String.length rest)%nat).

(** What [new URL(url)] exposes to [get]. *)
Record URLRecord := mkURL {
  url_origin : string;
  url_pathname : string
}.

(** A post file after [JSON.parse] and [validatePost]: the body and the
    two date fields as they are written in the file ([updatedAt] is
    optional). *)
Record Post := mkPost {
  content_body : string;
  createdAt : option string;
  updatedAt : option string
}.

(** One pass through the body of the [for (let changedPost of changedPosts)]
    loop: go on with the next entry, [return] from the handler, or throw. *)
Inductive Iteration :=
| Continue (progress : Z) (w : World)
| Return (w : World)
| Throw (w : World).

Section Posts.

(** The platform's URL parser ([None]: [new URL] throws), [JSON.parse]
    followed by [validatePost] ([None]: either fails), and
    [Number(new Date(v))]. *)
Variable new_URL : string → option URLRecord.
Variable JSON_parse_valid : string → option Post.
Variable Number_Date : option string → Js.number.

(** [get(url, pathname)]: [None] when it throws, otherwise the row found,
    if any. An empty [pathname] stands for an omitted one. The description
    of the author that [massagePostRow] attaches to a row is left out: the
    crawler only asks whether a row was found. *)
Definition get (url pathname : string) (w : World) : option (option PostRow) :=
  if String.eqb url "" then None else
  match new_URL url with
  | None => None
  | Some urlParsed =>
      let pathname := if String.eqb pathname "" then url_pathname urlParsed else pathname in
      Some (List.find
              (λ r, String.eqb (post_pathname r) pathname &&
                    existsb (λ src, (src_id src =? post_crawlSourceId r) &&
                                    String.eqb (src_url src) (url_origin urlParsed))
                            (crawl_sources w))
              (crawl_posts w))
  end.

Definition crawlPost (archive : InternalDatArchive) (crawlSource : CrawlSourceRecord)
    (numUpdates : Z) (changedPost : ChangeEvent) (progress : Z) (w : World)
  : Iteration :=
  let checkpoint_progress (w : World) :=
    (* checkpoint our progress *)
    let w := doCheckpoint "crawl_posts" TABLE_VERSION crawlSource (version changedPost) w in
    let progress := progress + 1 in
    Continue progress
      (emitProgressEvent (archive_url archive) "crawl_posts" progress numUpdates w) in
  match type changedPost with
  | del =>
      (* delete *)
      let w := db_run (DeletePost (src_id crawlSource) (name changedPost)) w in
      let w := emit (PostRemoved (archive_url archive)) w in
      checkpoint_progress w
  | _ =>
      (* read *)
      match archive_readFile archive (name changedPost) with
      | None => Return w (* abort indexing *)
      | Some postString =>
          (* parse and validate *)
          match JSON_parse_valid postString with
          | None => Continue progress w (* skip *)
          | Some post =>
              (* massage the post *)
              let post_createdAt := Number_Date (createdAt post) in
              let post_updatedAt := Number_Date (updatedAt post) in
              let post_updatedAt :=
                if Js.isNaN post_updatedAt then Js.of_Z 0 else post_updatedAt in
              (* upsert *)
              match get (archive_url archive) (name changedPost) w with
              | None => Throw w
              | Some (Some existingPost) =>
                  let w := db_run (UpdatePost (Date_now w) (content_body post)
                                     post_createdAt post_updatedAt
                                     (src_id crawlSource) (name changedPost)) w in
                  let w := emit (PostUpdated (archive_url archive)) w in
                  checkpoint_progress w
              | Some None =>
                  let w := db_run (InsertPost
                                     (mkPostRow (src_id crawlSource) (name changedPost)
                                        (Date_now w) (content_body post)
                                        post_createdAt post_updatedAt)) w in
                  let w := emit (PostAdded (archive_url archive)) w in
                  checkpoint_progress w
              end
          end
      end
  end.

(** The loop over [changedPosts], from the entry at which it stands. *)
Fixpoint crawlPosts (archive : InternalDatArchive) (crawlSource : CrawlSourceRecord)
    (numUpdates : Z) (changedPosts : list ChangeEvent) (progress : Z) (w : World)
  : Outcome :=
  match changedPosts with
  | [] => Resolved w
  | changedPost :: rest =>
      match crawlPost archive crawlSource numUpdates changedPost progress w with
      | Continue progress w => crawlPosts archive crawlSource numUpdates rest progress w
      | Return w => Resolved w
      | Throw w => Rejected w
      end
  end.

(** The handler [crawlSite] passes to [doCrawl]. *)
Definition crawlSite_handler (archive : InternalDatArchive)
    (crawlSource : CrawlSourceRecord) : Handler :=
  λ changes resetRequired w,
    let w :=
      if resetRequired then
        (* reset all data *)
        let w := db_run (DeletePostsOfSource (src_id crawlSource)) w in
        doCheckpoint "crawl_posts" TABLE_VERSION crawlSource 0 w
      else w in
    (* collect changed posts *)
    let changedPosts := getMatchingChangesInOrder changes JSON_PATH_REGEX in
    let w := emitProgressEvent (archive_url archive) "crawl_posts" 0
               (Z.of_nat (length changedPosts)) w in
    (* read and apply each post in order *)
    crawlPosts archive crawlSource (Z.of_nat (length changedPosts)) changedPosts 0 w.

Definition crawlSite (archive : InternalDatArchive) (crawlSource : CrawlSourceRecord)
    (w : World) : Outcome :=
  doCrawl archive crawlSource "crawl_posts" TABLE_VERSION
          (crawlSite_handler archive crawlSource) w.

End Posts.

(** ** crawler/search.js *)

Record BuiltinPage := mkPage {
  page_title : string;
  page_url : string
}.

Definition BUILTIN_PAGES : list BuiltinPage :=
  [ mkPage "Your Library" "beaker://library";
    mkPage "Search" "beaker://search";
    mkPage "Bookmarks" "beaker://bookmarks";
    mkPage "History" "beaker://history";
    mkPage "Watchlist" "beaker://watchlist";
    mkPage "Downloads" "beaker://downloads";
    mkPage "Settings" "beaker://settings" ].

Record LibraryArchiveRecord := mkLibraryArchive {
  lib_url : string;
  lib_title : string;
  lib_type : list string
}.

Record Bookmark := mkBookmark {
  bm_href : string;
  bm_title : string;
  bm_pinned : bool
}.

Record HistoryEntry := mkHistory {
  hist_url : string;
  hist_title : string
}.

(** [{title: b.title, url: b.href}] *)
Record BookmarkSuggestion := mkBookmarkSuggestion {
  sug_title : string;
  sug_url : string
}.

(** A field that was never assigned is [None]. *)
Record SuggestionResults := mkSuggestions {
  apps : list BuiltinPage;
  people : option (list LibraryArchiveRecord);
  webPages : option (list LibraryArchiveRecord);
  fileShares : option (list LibraryArchiveRecord);
  imageCollections : option (list LibraryArchiveRecord);
  others : option (list LibraryArchiveRecord);
  bookmarks : option (list BookmarkSuggestion);
  history : option (list HistoryEntry)
}.

(** [filterFn], on the link [a.url || a.href] and the title of [a]. *)
Definition filterFn (query : string) (link title : string) : bool :=
  Js.includes link query || Js.includes (Js.toLowerCase title) query.

Section Suggestions.

(** The collaborators of [listSuggestions]: [getBasicType],
    [datLibrary.queryArchives({isSaved: true})], [bookmarksDb.listBookmarks(0)]
    and [historyDb.search]. *)
Variable getBasicType : list string → string.
Variable savedArchives : list LibraryArchiveRecord.
Variable listBookmarks : list Bookmark.
Variable historyDb_search : string → list HistoryEntry.

(** [_.groupBy(l, a => getBasicType(a.type))[key]]: a group with no member
    is [undefined]. *)
Definition grouped (l : list LibraryArchiveRecord) (key : string)
  : option (list LibraryArchiveRecord) :=
  match Js.filter (λ a, String.eqb (getBasicType (lib_type a)) key) l with
  | [] => None
  | g => Some g
  end.

(** [listSuggestions(query = '', opts = {})], with [opts.filterPins]. *)
Definition listSuggestions (query : option string) (filterPins : bool)
  : SuggestionResults :=
  let query := default "" query in
  (* builtin pages *)
  let apps := Js.filter (λ a, filterFn query (page_url a) (page_title a)) BUILTIN_PAGES in
  (* library *)
  let libraryResults :=
    Js.filter (λ a, filterFn query (lib_url a) (lib_title a)) savedArchives in
  let '(bookmarks, history) :=
    if negb (String.eqb query "") then
      (* bookmarks *)
      let bookmarkResults :=
        if filterPins
        then Js.filter (λ b, negb (bm_pinned b) && filterFn query (bm_href b) (bm_title b))
                       listBookmarks
        else Js.filter (λ b, filterFn query (bm_href b) (bm_title b)) listBookmarks in
      let bookmarkResults := Js.slice0 12 bookmarkResults in
      (* history *)
      let historyResults := historyDb_search query in
      (Some (List.map (λ b, mkBookmarkSuggestion (bm_title b) (bm_href b)) bookmarkResults),
       Some (Js.sort (λ a b, Z.of_nat (String.length (hist_url a))
                             - Z.of_nat (String.length (hist_url b)))
                     (Js.slice0 12 historyResults)))
    else (None, None) in
  mkSuggestions apps
    (grouped libraryResults "user")
    (grouped libraryResults "web-page")
    (grouped libraryResults "file-share")
    (grouped libraryResults "image-collection")
    (grouped libraryResults "other")
    bookmarks history.

End Suggestions.

(** The options of [listSearchResults]; an omitted option is [None].
    [datasets] and [siteTypes] are lists (a single string is taken as the
    list of that string). *)
Record SearchOpts := mkSearchOpts {
  user : string;
  query : option string;
  hops : option Js.number;
  datasets : option (list string);
  siteTypes : option (list string);
  since : option Z;
  offset : option Z;
  limit : option Z
}.

(** What the three query builders receive. *)
Record QueryParams := mkQueryParams {
  q_query : option string;
  q_crawlSourceIds : option (list Z);
  q_user : string;
  q_userCrawlSourceId : Z;
  q_siteTypes : option (list string);
  q_since : Z;
  q_limit : Z;
  q_offset : Z;
  q_highlightNonce : Z
}.

Record SearchRow := mkSearchRow {
  row_url : string;
  row_authorUrl : string;
  row_pathname : string;
  row_title : string;
  row_description : string;
  row_crawledAt : Z
}.

(** The fields of a search result the merge step looks at, with the
    highlighted texts. *)
Record SearchResult := mkSearchResult {
  resultType : string;
  result_url : string;
  result_title : string;
  result_description : string;
  result_crawledAt : Z
}.

Record SearchResults := mkSearchResults {
  highlightNonce : Z;
  results : list SearchResult
}.

(** [v || d] for an optional number. *)
Definition or_default (v : option Z) (d : Z) : Z :=
  match v with
  | None => d
  | Some x => if x =? 0 then d else x
  end.

(** [hops = Math.min(Math.max(Math.floor(hops), 1), 2)] *)
Definition clampHops (hops : option Js.number) : Js.number :=
  Js.Math_min (Js.Math_max (Js.Math_floor (Js.ToNumber hops)) (Js.of_Z 1)) (Js.of_Z 2).

(** [SELECT id FROM crawl_sources WHERE url = user], first row. *)
Definition userCrawlSource (user : string) (w : World) : option Z :=
  src_id <$> List.find (λ src, String.eqb (src_url src) user) (crawl_sources w).

(** [SELECT id FROM crawl_sources src INNER JOIN crawl_followgraph fgraph
     ON fgraph.destUrl = src.url AND fgraph.crawlSourceId = userCrawlSourceId] *)
Definition followedSourceIds (userCrawlSourceId : Z) (w : World) : list Z :=
  flat_map
    (λ src,
       List.map (λ _, src_id src)
         (List.filter (λ fgraph, String.eqb (fg_destUrl fgraph) (src_url src) &&
                                 (fg_crawlSourceId fgraph =? userCrawlSourceId))
                      (crawl_followgraph w)))
    (crawl_sources w).

(** The set of crawl sources to query; [None] is a variable left
    [undefined]. *)
Definition crawlSourceIds (hops : Js.number) (userCrawlSourceId : Z) (w : World)
  : option (list Z) :=
  if Js.strict_eq hops (Js.of_Z 2) then
    (* the user and all followed sources *)
    Some ([userCrawlSourceId] ++ followedSourceIds userCrawlSourceId w)
  else if Js.strict_eq hops (Js.of_Z 1) then
    (* just the user *)
    Some [userCrawlSourceId]
  else None.

(** [!datasets || datasets.includes(d)] *)
Definition dataset_requested (datasets : option (list string)) (d : string) : bool :=
  match datasets with
  | None => true
  | Some ds => existsb (String.eqb d) ds
  end.

Section Search.

(** [(Math.random() * 1e3)|0], [db.all] of the query built for a dataset,
    and [siteDescriptions.getBest({subject, author})]. *)
Variable random_nonce : Z.
Variable db_all : string → QueryParams → list SearchRow.
Variable getBest : string → option string → SearchResult.

Definition prepQuery (query : option string) : option string :=
  match query with
  | Some q =>
      if negb (String.eqb q "")
      then Some (Js.replace_chars [":"; "^"; "*"; "."]%char (Js.toLowerCase q) +:+ "*")
      else query
  | None => None
  end.

Definition followgraphResults (opts : SearchOpts) (params : QueryParams)
  : list SearchResult :=
  if dataset_requested (datasets opts) "followgraph" then
    let rows := db_all "followgraph" params in
    let rows := Js.uniqWith rows (λ a b, String.eqb (row_url a) (row_url b)) in
    List.map (λ p, mkSearchResult "user" (row_url p) (row_title p) (row_description p)
                                  (row_crawledAt p)) rows
  else [].

Definition linkPostResults (opts : SearchOpts) (params : QueryParams)
  : list SearchResult :=
  if dataset_requested (datasets opts) "link_posts" then
    let rows := db_all "link_posts" params in
    List.map (λ p, mkSearchResult "post" (row_authorUrl p +:+ row_pathname p)
                                  (row_title p) (row_description p) (row_crawledAt p)) rows
  else [].

Definition publishedSiteResults (opts : SearchOpts) (params : QueryParams)
  : list SearchResult :=
  if dataset_requested (datasets opts) "published_sites" then
    let rows := db_all "published_sites" params in
    let rows := Js.uniqWith rows (λ a b, String.eqb (row_url a) (row_url b)) in
    List.map
      (λ row,
         let result := getBest (row_url row) (Some (row_authorUrl row)) in
         mkSearchResult "site" (result_url result)
           (if negb (String.eqb (row_title row) "") then row_title row
            else result_title result)
           (if negb (String.eqb (row_description row) "") then row_description row
            else result_description result)
           (result_crawledAt result))
      rows
  else [].

(** [listSearchResults(opts)]; [None] when the user has no row in
    [crawl_sources] and reading [res.id] throws. *)
Definition listSearchResults (opts : SearchOpts) (w : World) : option SearchResults :=
  let highlightNonce := random_nonce in
  let since := or_default (since opts) 0 in
  let offset := or_default (offset opts) 0 in
  let limit := or_default (limit opts) 20 in
  let hops := clampHops (hops opts) in
  (* prep search terms *)
  let query := prepQuery (query opts) in
  (* get user's crawl_source id *)
  match userCrawlSource (user opts) w with
  | None => None
  | Some userCrawlSourceId =>
      (* construct set of crawl sources to query *)
      let crawlSourceIds := crawlSourceIds hops userCrawlSourceId w in
      let params := mkQueryParams query crawlSourceIds (user opts) userCrawlSourceId
                      (siteTypes opts) since limit offset highlightNonce in
      (* run queries *)
      let results := [] ++ followgraphResults opts params in
      let results := results ++ linkPostResults opts params in
      let results := results ++ publishedSiteResults opts params in
      (* sort and apply limit again *)
      let results := Js.sort (λ a b, result_crawledAt b - result_crawledAt a) results in
      let results := Js.slice0 limit results in
      Some (mkSearchResults highlightNonce results)
  end.

End Search.

(** ** crawler/util.js : generated file names *)

Section TimeFilename.

(** [(new Date(d)).toISOString()] *)
Variable toISOString : Z → string.

(** [generateTimeFilename()], at the clock reading [now] and with the
    module variable [_lastGeneratedTimeFilename] ([None] while it is
    undefined): the file name and the new value of the variable. *)
Definition generateTimeFilename (now : Z) (lastGeneratedTimeFilename : option Z)
  : string * option Z :=
  let d := now in
  let d := if bool_decide (Some d = lastGeneratedTimeFilename) then d + 1 else d in
  (toISOString d, Some d).

End TimeFilename.

(** ** crawler/util.js : thumbnails *)

Section Thumbnail.

(** [new URL(url).hostname]; [None] when [new URL] throws. *)
Variable URL_hostname : string → option string.

Definition toHostname (url : string) : option string := URL_hostname url.

(** [getSiteDescriptionThumbnailUrl(author, subject)]; [None] when it
    throws. *)
Definition getSiteDescriptionThumbnailUrl (author subject : string) : option string :=
  if String.eqb author subject
  then Some (subject +:+ "/thumb") (* self-description, use their own thumb *)
  else
    (* use captured thumb *)
    hostname ← toHostname subject;
    Some (author +:+ "/data/known_sites/" +:+ hostname +:+ "/thumb").

End Thumbnail.

(** ** crawler/posts.js : the query of [list] *)

(** A value bound to a [?] of a statement. *)
Inductive SqlValue :=
| SqlText (s : string)
| SqlNumber (n : Z).

Section PostsList.

(** [toOrigin(url)]; [None] when it throws. *)
Variable toOrigin : string → option string.

(** The query text and the values that [list({offset, limit, reverse,
    author, authors})] hands to [db.all]; [None] when it throws because an
    author is not a valid URL. *)
Definition list_query (offset limit : option Z) (reverse : bool)
    (author : option string) (authors : option (list string))
  : option (string * list SqlValue) :=
  let authors :=
    match author with
    | Some a => if negb (String.eqb a "") then Some (default [] authors ++ [a]) else authors
    | None => authors
    end in
  authors ← match authors with
            | Some l => Some <$> mapM toOrigin l
            | None => Some None
            end;
  (* build query *)
  let nl := String (ascii_of_nat 10) "" in
  let query :=
    nl +:+ "    SELECT crawl_posts.*, src.url AS crawlSourceUrl FROM crawl_posts" +:+
    nl +:+ "      INNER JOIN crawl_sources src ON src.id = crawl_posts.crawlSourceId" +:+
    nl +:+ "  " in
  let values := [] in
  let '(query, values, _) :=
    fold_left (λ '(query, values, op) a,
                 (query +:+ " " +:+ op +:+ " src.url = ?", values ++ [SqlText a], "OR"))
              (default [] authors) (query, values, "WHERE") in
  let query := query +:+ " ORDER BY createdAt" in
  let query := if reverse then query +:+ " DESC" else query in
  let '(query, values) :=
    match limit with
    | Some l => if negb (l =? 0) then (query +:+ " LIMIT ?", values ++ [SqlNumber l])
                else (query, values)
    | None => (query, values)
    end in
  let '(query, values) :=
    match offset with
    | Some o => if negb (o =? 0) then (query +:+ " OFFSET ?", values ++ [SqlNumber o])
                else (query, values)
    | None => (query, values)
    end in
  Some (query, values).

End PostsList.

(** ** dbs/bookmarks.js *)

(** [String.prototype.split(sep)] for a separator of one character. *)
Fixpoint split_on (sep : ascii) (s : string) : list string :=
  match s with
  | EmptyString => [EmptyString]
  | String c s' =>
      if Ascii.eqb c sep then EmptyString :: split_on sep s'
      else match split_on sep s' with
           | piece :: pieces => String c piece :: pieces
           | [] => [String c EmptyString]
           end
  end.

(** [Array.prototype.join(sep)] *)
Fixpoint join (sep : string) (l : list string) : string :=
  match l with
  | [] => EmptyString
  | [x] => x
  | x :: rest => x +:+ sep +:+ join sep rest
  end.

(** The tags argument of [addBookmark]: a string or an array of strings. *)
Inductive Tags :=
| TagString (v : string)
| TagArray (v : list string).

Definition tagsToString (v : Tags) : string :=
  match v with
  | TagArray v => join " " v
  | TagString v => v
  end.

(** A row of [bookmarks]; a [NULL] in [tags] is [None]. *)
Record BookmarkRow := mkBookmarkRow {
  bmrow_profileId : Z;
  bmrow_url : string;
  bmrow_title : string;
  bmrow_tags : option string;
  bmrow_pinned : Z;
  bmrow_pinOrder : Z;
  bmrow_createdAt : Z
}.

(** The bookmark [toNewFormat] makes of a row. *)
Record BookmarkRecord := mkBookmarkRecord {
  bookmark_createdAt : Z;
  bookmark_href : string;
  bookmark_title : string;
  bookmark_tags : list string;
  bookmark_pinned : bool;
  bookmark_pinOrder : Z
}.

Definition toNewFormat (b : option BookmarkRow) : option BookmarkRecord :=
  match b with
  | None => None
  | Some b =>
      Some (mkBookmarkRecord
              (bmrow_createdAt b * 1000) (* convert to ms *)
              (bmrow_url b)
              (bmrow_title b)
              (match bmrow_tags b with
               | Some tags =>
                   if negb (String.eqb tags "")
                   then Js.filter (λ t, negb (String.eqb t "")) (split_on " " tags)
                   else []
               | None => []
               end)
              (negb (bmrow_pinned b =? 0))
              (bmrow_pinOrder b))
  end.

(** [listBookmarkTags(profileId)] on the rows of [bookmarks]: the [Set] of
    the tags keeps them in the order in which they were first added. *)
Definition listBookmarkTags (profileId : Z) (bookmarks : list BookmarkRow) : list string :=
  let rows := Js.filter (λ b, bmrow_profileId b =? profileId) bookmarks in
  fold_left
    (λ tagSet b,
       match bmrow_tags b with
       | Some tags =>
           if negb (String.eqb tags "")
           then fold_left (λ tagSet t, if bool_decide (t ∈ tagSet) then tagSet
                                       else tagSet ++ [t])
                          (split_on " " tags) tagSet
           else tagSet
       | None => tagSet
       end)
    rows [].

(** [setBookmarkPinOrder(profileId, urls)] on the rows of [bookmarks]: the
    updates, in the order of [urls], from the index [i] on. *)
Fixpoint setBookmarkPinOrder_from (len : Z) (i : Z) (profileId : Z) (urls : list string)
    (bookmarks : list BookmarkRow) : list BookmarkRow :=
  match urls with
  | [] => bookmarks
  | url :: rest =>
      setBookmarkPinOrder_from len (i + 1) profileId rest
        (List.map (λ b, if (bmrow_profileId b =? profileId) && String.eqb (bmrow_url b) url
                        then mkBookmarkRow (bmrow_profileId b) (bmrow_url b) (bmrow_title b)
                               (bmrow_tags b) (bmrow_pinned b) (len - i) (bmrow_createdAt b)
                        else b)
                  bookmarks)
  end.

Definition setBookmarkPinOrder (profileId : Z) (urls : list string)
    (bookmarks : list BookmarkRow) : list BookmarkRow :=
  let len := Z.of_nat (length urls) in
  setBookmarkPinOrder_from len 0 profileId urls bookmarks.

(** ** Auxiliary definitions used by the statements and the proofs *)

(** The world an iteration of the loop leaves behind. *)
Definition iteration_world (i : Iteration) : World :=
  match i with Continue _ w | Return w | Throw w => w end.

(** A list without the first element satisfying [p]. *)
Fixpoint remove_first {A} (p : A → bool) (l : list A) : list A :=
  match l with
  | [] => []
  | x :: l' => if p x then l' else x :: remove_first p l'
  end.

(** [doCrawl] from the point where the crawl state is known: the version
    of the archive, the window, the change log, the handler and the final
    checkpoint. *)
Definition crawl_from_state (archive : InternalDatArchive)
    (crawlSource : CrawlSourceRecord) (crawlDataset : string)
    (crawlDatasetVersion : Z) (handlerFn : Handler)
    (resetRequired : bool) (crawlSourceVersion : Z) (w : World) : Outcome :=
  let version := default 0 (archive_info archive) in
  let start := crawlSourceVersion + 1 in
  let end_ := version + 1 in
  match archive_history archive start end_ with
  | None => Rejected w
  | Some changes =>
      match handlerFn changes resetRequired
              (emit (CrawlDatasetStart (archive_url archive) crawlDataset start end_) w) with
      | Rejected w => Rejected w
      | Resolved w =>
          Resolved
            (emit (CrawlDatasetFinish (archive_url archive) crawlDataset start end_)
               (doCheckpoint crawlDataset crawlDatasetVersion crawlSource version w))
      end
  end.

(** The values of [crawlSourceVersion] written for a dataset and a source
    by the statements of a log, oldest first. *)
Definition stored_versions (crawlDataset : string) (crawlSourceId : Z)
    (l : list Effect) : list Z :=
  omap (λ e, match e with
             | Run (InsertMeta row) =>
                 if meta_key crawlDataset crawlSourceId row
                 then Some (meta_crawlSourceVersion row) else None
             | _ => None
             end) l.

(** The stored checkpoint: dataset epoch and source version. *)
Definition checkpoint (crawlDataset : string) (crawlSourceId : Z) (w : World)
  : option (Z * Z) :=
  (λ st, (meta_crawlDatasetVersion st, meta_crawlSourceVersion st))
    <$> db_get_meta crawlSourceId crawlDataset w.

(** The source version [doCrawl] starts from: the stored one when the
    stored epoch is the caller's, [0] otherwise. *)
Definition effective_version (crawlDataset : string) (crawlDatasetVersion : Z)
    (crawlSourceId : Z) (w : World) : Z :=
  match checkpoint crawlDataset crawlSourceId w with
  | Some (epoch, v) => if epoch =? crawlDatasetVersion then v else 0
  | None => 0
  end.

(** The change log of the window that starts after [stored] holds events
    of the window, in the order of their versions, and the archive is not
    older than [stored]. *)
Definition archive_window_ok (archive : InternalDatArchive) (stored : Z) : Prop :=
  let current := default 0 (archive_info archive) in
  stored ≤ current ∧
  ∀ changes, archive_history archive (stored + 1) (current + 1) = Some changes →
    StronglySorted Z.le (version <$> changes) ∧
    Forall (λ c, stored + 1 ≤ version c ≤ current) changes.

(** From [w] to [w'] the log was extended, the checkpoint of the dataset
    and the source was written with the versions [vs] in this order, and
    the stored checkpoint is the last of them (the table is untouched when
    there is none). *)
Definition tracks (crawlDataset : string) (epoch : Z) (crawlSourceId : Z)
    (w w' : World) (vs : list Z) : Prop :=
  ∃ new, log w' = log w ++ new
    ∧ stored_versions crawlDataset crawlSourceId new = vs
    ∧ match last vs with
      | None => crawl_sources_meta w' = crawl_sources_meta w
      | Some v => checkpoint crawlDataset crawlSourceId w' = Some (epoch, v)
      end.

(** The statements on [crawl_posts]. *)
Definition on_posts (stmt : Sql) : Prop :=
  match stmt with
  | DeleteMeta _ _ | InsertMeta _ => False
  | _ => True
  end.

(** *** Concrete archives and worlds for the examples *)

(** An archive that serves the given change log and files. *)
Definition archive_of (url : string) (current : option Z)
    (changes : list ChangeEvent) (files : list (string * string))
  : InternalDatArchive :=
  mkArchive url current
    (λ start end_,
       Some (List.filter (λ c, (start <=? version c) && (version c <? end_)) changes))
    (λ path, snd <$> List.find (λ f, String.eqb (fst f) path) files).

Definition alice : CrawlSourceRecord := mkSource 7 "dat://alice".

(** Alice is a registered crawl source; nothing is crawled yet. *)
Definition fresh_world : World :=
  mkWorld [alice] [] [] [] 1000 [].

(** A handler that tells what [resetRequired] it was given: it rejects
    when it is [true]. *)
Definition reset_probe : Handler :=
  λ changes resetRequired w, if resetRequired then Rejected w else Resolved w.

(** The text before the first [/] and the text from it on. *)
Fixpoint until_slash (s : string) : string * string :=
  match s with
  | EmptyString => (EmptyString, EmptyString)
  | String c s' =>
      if Ascii.eqb c "/" then (EmptyString, s)
      else let '(host, path) := until_slash s' in (String c host, path)
  end.

(** [new URL(url)] of Node's [url] module on the urls of the examples,
    which read [scheme://host] or [scheme://host/path], in lower case and
    without port, user, query or fragment. [https:] is a special scheme:
    the origin is [https://host] and an empty path reads [/]. [dat:] is
    not: the origin of a dat: url is opaque and reads [null], and the path
    is kept as it is. *)
Definition node_URL (url : string) : option URLRecord :=
  let after (scheme : string) :=
    until_slash (String.substring (String.length scheme)
                   (String.length url - String.length scheme) url) in
  if String.prefix "https://" url then
    let '(host, path) := after "https://" in
    if String.eqb host "" then None
    else Some (mkURL ("https://" +:+ host) (if String.eqb path "" then "/" else path))
  else if String.prefix "dat://" url then
    let '(_, path) := after "dat://" in
    Some (mkURL "null" path)
  else None.

(** A file is a valid post when it starts with a brace; its body is the
    file. *)
Definition brace_posts : string → option Post :=
  λ s, if String.prefix "{" s then Some (mkPost s (Some "2019-01-01") None) else None.

Definition date_stub : option string → Js.number :=
  λ v, match v with Some _ => Js.of_Z 1546300800000 | None => Js.NaN end.

(** Alice's three posts; the second file cannot be read. *)
Definition unreadable_archive : InternalDatArchive :=
  archive_of "dat://alice" (Some 3)
    [mkChange "/data/feed/a.json" add 1; mkChange "/data/feed/b.json" add 2;
     mkChange "/data/feed/c.json" add 3]
    [("/data/feed/a.json", "{a}"); ("/data/feed/c.json", "{c}")].

(** Alice's two posts; the first file is not a valid post. *)
Definition invalid_archive : InternalDatArchive :=
  archive_of "dat://alice" (Some 2)
    [mkChange "/data/feed/a.json" add 1; mkChange "/data/feed/b.json" add 2]
    [("/data/feed/a.json", "oops"); ("/data/feed/b.json", "{b}")].

(** Alice was crawled up to version 5 by an older version of the posts
    table. *)
Definition old_epoch_world : World :=
  mkWorld [alice] [mkMeta "crawl_posts" 0 7 5 900]
    [mkPostRow 7 "/data/feed/old.json" 900 "{old}" (Js.of_Z 1) (Js.of_Z 0)] [] 1000 [].

Definition five_versions_archive : InternalDatArchive :=
  archive_of "dat://alice" (Some 5)
    [mkChange "/data/feed/a.json" add 2; mkChange "/data/feed/a.json" change 4]
    [("/data/feed/a.json", "{a}")].

(** *** Sequences of runs of the posts crawler *)

Section Runs.

Variable new_URL : string → option URLRecord.
Variable JSON_parse_valid : string → option Post.
Variable Number_Date : option string → Js.number.

(** Successive runs of [crawlSite] for one source; every run comes with the
    time at which it starts and the archive as it is then. *)
Fixpoint crawl_runs (runs : list (Z * InternalDatArchive))
    (crawlSource : CrawlSourceRecord) (w : World) : World :=
  match runs with
  | [] => w
  | (now, archive) :: rest =>
      crawl_runs rest crawlSource
        (world_of (crawlSite new_URL JSON_parse_valid Number_Date archive crawlSource
                     (set_clock now w)))
  end.

(** Every run finds an archive whose window is well formed for the
    version the run starts from. *)
Fixpoint windows_ok (runs : list (Z * InternalDatArchive))
    (crawlSource : CrawlSourceRecord) (w : World) : Prop :=
  match runs with
  | [] => True
  | (now, archive) :: rest =>
      archive_window_ok archive
        (effective_version "crawl_posts" TABLE_VERSION (src_id crawlSource) w)
      ∧ windows_ok rest crawlSource
          (world_of (crawlSite new_URL JSON_parse_valid Number_Date archive crawlSource
                       (set_clock now w)))
  end.

End Runs.

(** Two runs on Alice's archive, at version 5 and later at version 7. *)
Definition two_runs : list (Z * InternalDatArchive) :=
  [ (2000, five_versions_archive);
    (3000, archive_of "dat://alice" (Some 7)
             [mkChange "/data/feed/a.json" add 2; mkChange "/data/feed/a.json" change 4;
              mkChange "/data/feed/b.json" add 6]
             [("/data/feed/a.json", "{a}"); ("/data/feed/b.json", "{b}")]) ].

(** *** The upsert, as the specification words it *)

(** Overwrite the rows with the key of [row] when there are any, insert
    [row] otherwise. *)
Definition upsert_row (row : PostRow) (t : list PostRow) : list PostRow :=
  let key := post_key (post_crawlSourceId row) (post_pathname row) in
  if existsb key t then List.map (λ r, if key r then row else r) t else t ++ [row].

(** The join of [get] selects exactly the rows of the crawl source: the
    source is registered in [crawl_sources] under the origin of the
    archive's url, and no other source is. *)
Definition source_registered (origin : string) (crawlSource : CrawlSourceRecord)
    (w : World) : Prop :=
  ∀ sid, existsb (λ src, (src_id src =? sid) && String.eqb (src_url src) origin)
                 (crawl_sources w)
         = (sid =? src_id crawlSource).

(** The row the crawler stores for a post file at the time [now]. *)
Definition stored_row (Number_Date : option string → Js.number)
    (src : CrawlSourceRecord) (e : ChangeEvent) (post : Post) (now : Z) : PostRow :=
  mkPostRow (src_id src) (name e) now (content_body post)
    (Number_Date (createdAt post))
    (if Js.isNaN (Number_Date (updatedAt post)) then Js.of_Z 0
     else Number_Date (updatedAt post)).

(** *** A concrete search *)

Definition search_rows : string → QueryParams → list SearchRow :=
  λ dataset params,
    if String.eqb dataset "link_posts"
    then [mkSearchRow "http://a" "dat://alice" "/data/link/1.json" "A" "" 10;
          mkSearchRow "http://b" "dat://alice" "/data/link/2.json" "B" "" 30;
          mkSearchRow "http://c" "dat://alice" "/data/link/3.json" "C" "" 20]
    else [].

Definition no_description : string → option string → SearchResult :=
  λ subject author, mkSearchResult "" subject "" "" 0.

Definition two_newest : SearchOpts :=
  mkSearchOpts "dat://alice" None (Some (Js.of_Z 1)) None None None None (Some 2).

(** A link-post query that answers with one row per crawl source it is
    given, and with nothing when the set of crawl sources is undefined. *)
Definition scope_probe : string → QueryParams → list SearchRow :=
  λ dataset params,
    if String.eqb dataset "link_posts"
    then match q_crawlSourceIds params with
         | Some ids => List.map (λ sid, mkSearchRow "http://a" "dat://alice" "/p" "A" "" sid) ids
         | None => []
         end
    else [].

Definition search_with_hops (hops : option Js.number) : SearchOpts :=
  mkSearchOpts "dat://alice" None hops None None None None None.

(** *** What a crawl of one source leaves alone *)

(** The rows of [crawl_posts] that belong to other sources. *)
Definition posts_of_others (crawlSourceId : Z) (w : World) : list PostRow :=
  List.filter (λ r, negb (post_crawlSourceId r =? crawlSourceId)) (crawl_posts w).

(** The rows of [crawl_sources_meta] of other (dataset, source) pairs. *)
Definition meta_of_others (crawlDataset : string) (crawlSourceId : Z) (w : World)
  : list MetaRow :=
  List.filter (λ r, negb (meta_key crawlDataset crawlSourceId r)) (crawl_sources_meta w).

(** From [w] to [w'] only the rows of the source in [crawl_posts], its
    checkpoint for the dataset and the log may have changed. *)
Definition only_touches (crawlDataset : string) (crawlSourceId : Z) (w w' : World) : Prop :=
  posts_of_others crawlSourceId w' = posts_of_others crawlSourceId w
  ∧ meta_of_others crawlDataset crawlSourceId w' = meta_of_others crawlDataset crawlSourceId w
  ∧ crawl_sources w' = crawl_sources w
  ∧ crawl_followgraph w' = crawl_followgraph w
  ∧ clock w' = clock w.

(** The statements on [crawl_posts] that concern the rows of one source. *)
Definition stmt_of_source (crawlSourceId : Z) (stmt : Sql) : Prop :=
  match stmt with
  | DeletePostsOfSource sid | DeletePost sid _ | UpdatePost _ _ _ _ sid _ =>
      sid = crawlSourceId
  | InsertPost row => post_crawlSourceId row = crawlSourceId
  | DeleteMeta _ _ | InsertMeta _ => False
  end.

(** Carol's site is served over https. It is a registered crawl source
    beside Alice; a post of each of them is stored, under the same
    pathname. *)
Definition carol : CrawlSourceRecord := mkSource 9 "https://carol.example".

Definition carol_world : World :=
  mkWorld [alice; carol] []
    [mkPostRow 7 "/data/feed/old.json" 800 "{alice}" (Js.of_Z 1) (Js.of_Z 0);
     mkPostRow 9 "/data/feed/old.json" 900 "{old}" (Js.of_Z 1) (Js.of_Z 0)] [] 1000 [].

(** Carol adds a post at version 1 and removes the old one at version 2. *)
Definition carol_archive : InternalDatArchive :=
  archive_of "https://carol.example" (Some 2)
    [mkChange "/data/feed/a.json" add 1; mkChange "/data/feed/old.json" del 2]
    [("/data/feed/a.json", "{a}")].

(** Alice publishes a post and edits it before the next run. *)
Definition post_then_edit : list (Z * InternalDatArchive) :=
  [ (1000, archive_of "dat://alice" (Some 1)
             [mkChange "/data/feed/a.json" add 1]
             [("/data/feed/a.json", "{a}")]);
    (2000, archive_of "dat://alice" (Some 2)
             [mkChange "/data/feed/a.json" add 1; mkChange "/data/feed/a.json" change 2]
             [("/data/feed/a.json", "{a, edited}")]) ].

(** *** The events of a run *)

(** The [(progress, numUpdates)] pairs of the [crawl-dataset-progress]
    events of a log, oldest first. *)
Definition progress_events (l : list Effect) : list (Z * Z) :=
  omap (λ e, match e with
             | Emit (CrawlDatasetProgress _ _ progress numUpdates) =>
                 Some (progress, numUpdates)
             | _ => None
             end) l.

(** The [crawl-dataset-start] and [crawl-dataset-finish] events of a log. *)
Definition lifecycle_events (l : list Effect) : list Event :=
  omap (λ e, match e with
             | Emit (CrawlDatasetStart a b c d) => Some (CrawlDatasetStart a b c d)
             | Emit (CrawlDatasetFinish a b c d) => Some (CrawlDatasetFinish a b c d)
             | _ => None
             end) l.

(** The events of the posts crawler itself. *)
Definition post_event (ev : Event) : Prop :=
  match ev with
  | PostRemoved _ | PostUpdated _ | PostAdded _ => True
  | _ => False
  end.

(** *** Characters of a string *)

Definition chars (s : string) : list ascii := String.list_ascii_of_string s.

(** An upper-case ASCII letter. *)
Definition is_upper (c : ascii) : bool :=
  let n := Ascii.N_of_ascii c in ((65 <=? n) && (n <=? 90))%N.

(** A character of ASCII. *)
Definition is_ascii (c : ascii) : bool := (Ascii.N_of_ascii c <? 128)%N.

(** The number of [?] placeholders of a query text. *)
Definition placeholders (q : string) : nat :=
  length (List.filter (λ c, Ascii.eqb c "?") (chars q)).

(** A row of [bookmarks] with another [pinOrder]. *)
Definition with_pinOrder (b : BookmarkRow) (pinOrder : Z) : BookmarkRow :=
  mkBookmarkRow (bmrow_profileId b) (bmrow_url b) (bmrow_title b)
    (bmrow_tags b) (bmrow_pinned b) pinOrder (bmrow_createdAt b).

(** * Properties *)

(** ** The change-set resolver *)

Lemma findIndex_ge {A} (p : A → bool) l : -1 ≤ Js.findIndex p l.
Proof.
  induction l as [|x l IH]; simpl; [lia|].
  destruct (p x); [lia|].
  destruct (Z.eqb_spec (Js.findIndex p l) (-1)); lia.
Qed.

Lemma findIndex_splice {A} (p : A → bool) l :
  (if negb (Js.findIndex p l =? -1) then Js.splice1 (Js.findIndex p l) l else l)
  = remove_first p l.
Proof.
  induction l as [|x l IH]; simpl in *; [done|].
  destruct (p x); [done|].
  pose proof (findIndex_ge p l) as Hge.
  destruct (Z.eqb_spec (Js.findIndex p l) (-1)) as [E|E]; simpl in *.
  - by rewrite <- IH.
  - destruct (Z.eqb_spec (Js.findIndex p l + 1) (-1)); [lia|]. simpl.
    unfold Js.splice1 in *.
    replace (Z.to_nat (Js.findIndex p l + 1)) with (S (Z.to_nat (Js.findIndex p l))) by lia.
    simpl. by rewrite IH.
Qed.

Lemma filter_all {A} (P : A → Prop) `{!∀ x, Decision (P x)} (l : list A) :
  Forall P l → filter P l = l.
Proof.
  induction 1 as [|x l Hx Hl IH]; [done|].
  by rewrite filter_cons_True, IH.
Qed.

Lemma remove_first_names (n : string) (l : list ChangeEvent) :
  NoDup (name <$> l) →
  remove_first (λ c2, String.eqb (name c2) n) l = filter (λ c, name c ≠ n) l.
Proof.
  induction l as [|x l IH]; [done|].
  rewrite fmap_cons. intros [Hx Hl]%NoDup_cons. simpl.
  destruct (String.eqb_spec (name x) n) as [E|E].
  - rewrite filter_cons_False by (by intros ?).
    symmetry. apply filter_all, Forall_forall.
    intros c Hc Hn. apply Hx. rewrite E, <- Hn. apply list_elem_of_fmap. eauto.
  - rewrite filter_cons_True by done. by rewrite IH.
Qed.

Lemma NoDup_names_replace (c : ChangeEvent) (acc : list ChangeEvent) :
  NoDup (name <$> acc) →
  NoDup (name <$> (filter (λ a, name a ≠ name c) acc ++ [c])).
Proof.
  intros Hnd. rewrite fmap_app. apply NoDup_app. split_and!.
  - apply (sublist_NoDup _ _ Hnd), fmap_sublist, sublist_filter.
  - intros n Hn. simpl. rewrite list_elem_of_singleton. intros ->.
    apply list_elem_of_fmap in Hn as (a & Ha & Hin).
    apply list_elem_of_filter in Hin as [Hne _]. congruence.
  - simpl. apply NoDup_singleton.
Qed.

Lemma fold_resolve (regex : RegExp) (l acc : list ChangeEvent) :
  NoDup (name <$> acc) →
  fold_left
    (λ list c,
       if regex (name c) then
         let i := Js.findIndex (λ c2, String.eqb (name c2) (name c)) list in
         let list := if negb (i =? -1) then Js.splice1 i list else list in
         Js.push list c
       else list)
    l acc
  = filter (λ a, ¬ (regex (name a) = true ∧ name a ∈ name <$> l)) acc
    ++ latest_occurrences regex l.
Proof.
  revert acc. induction l as [|c l IH]; intros acc Hnd; simpl.
  - rewrite app_nil_r. symmetry. apply filter_all, Forall_forall.
    intros a _ [_ Hin]. by apply elem_of_nil in Hin.
  - destruct (regex (name c)) eqn:Hre; cbv zeta.
    + rewrite (findIndex_splice (λ c2, String.eqb (name c2) (name c)) acc).
      rewrite remove_first_names by done. unfold Js.push.
      rewrite IH by (by apply NoDup_names_replace).
      rewrite filter_app, list_filter_filter, <- (assoc_L (++)). f_equal.
      * apply list_filter_iff. intros a. rewrite elem_of_cons. split.
        -- intros [Hn Hne] [Hr [?|?]]; [done|]. by apply Hn.
        -- intros Hn. split; [|intros E; apply Hn; rewrite E; auto].
           intros [? ?]. apply Hn. auto.
      * case_bool_decide as Hin.
        -- rewrite filter_cons_True; [done|]. by intros [_ ?].
        -- by rewrite filter_cons_False by (intros Hn; apply Hn; auto).
    + rewrite IH by done. f_equal. apply list_filter_iff. intros a.
      rewrite elem_of_cons. split.
      * intros Hn [Hr [E|?]]; [congruence|]. apply Hn. auto.
      * intros Hn [? ?]. apply Hn. auto.
Qed.

Lemma resolve_latest (changes : list ChangeEvent) (regex : RegExp) :
  getMatchingChangesInOrder changes regex = latest_occurrences regex changes.
Proof.
  unfold getMatchingChangesInOrder. rewrite fold_resolve by constructor.
  by rewrite filter_nil.
Qed.

Lemma latest_sublist regex l : latest_occurrences regex l `sublist_of` l.
Proof.
  induction l as [|c l IH]; simpl; [constructor|].
  destruct (_ && _); by constructor.
Qed.

Lemma latest_names regex l n :
  n ∈ name <$> latest_occurrences regex l ↔ n ∈ name <$> l ∧ regex n = true.
Proof.
  induction l as [|c l IH]; simpl.
  - split; [intros H|intros [H _]]; by apply elem_of_nil in H.
  - destruct (regex (name c)) eqn:Hre; simpl.
    + case_bool_decide as Hin; simpl; rewrite ?elem_of_cons, IH.
      * split; [intros [->|[? ?]]; auto|intros [[->|?] ?]; auto].
      * split; [intros [? ?]; auto|intros [[->|?] ?]; auto].
    + rewrite elem_of_cons, IH.
      split; [intros [? ?]; auto|intros [[->|?] ?]; [congruence|auto]].
Qed.

Lemma latest_NoDup regex l : NoDup (name <$> latest_occurrences regex l).
Proof.
  induction l as [|c l IH]; simpl; [constructor|].
  destruct (regex (name c)); simpl; [|done].
  case_bool_decide as Hin; simpl; [|done].
  constructor; [|done]. rewrite latest_names. by intros [? _].
Qed.

Lemma latest_is_last regex l c :
  c ∈ latest_occurrences regex l →
  ∃ l1 l2, l = l1 ++ c :: l2 ∧ name c ∉ name <$> l2.
Proof.
  induction l as [|x l IH]; simpl; [by intros ?%elem_of_nil|].
  intros Hc.
  assert (c ∈ latest_occurrences regex l → ∃ l1 l2, x :: l = l1 ++ c :: l2
            ∧ name c ∉ name <$> l2) as Hrest.
  { intros (l1 & l2 & -> & ?)%IH. by exists (x :: l1), l2. }
  destruct (regex (name x)); simpl in Hc; [|auto].
  case_bool_decide as Hin; simpl in Hc; [|auto].
  apply elem_of_cons in Hc as [->|?]; [|auto].
  by exists [], l.
Qed.

Lemma latest_order regex l o1 a o2 b o3 :
  latest_occurrences regex l = o1 ++ a :: o2 ++ b :: o3 →
  ∃ l1 l2 l3, l = l1 ++ a :: l2 ++ b :: l3
              ∧ (name a ∉ name <$> (l2 ++ b :: l3)) ∧ (name b ∉ name <$> l3).
Proof.
  revert o1. induction l as [|x l IH]; intros o1; simpl.
  - intros H. by destruct o1.
  - assert (∀ o, latest_occurrences regex l = o ++ a :: o2 ++ b :: o3 →
                 ∃ l1 l2 l3, x :: l = l1 ++ a :: l2 ++ b :: l3
                   ∧ (name a ∉ name <$> (l2 ++ b :: l3)) ∧ (name b ∉ name <$> l3)) as Hrest.
    { intros o (l1 & l2 & l3 & -> & ? & ?)%IH. by exists (x :: l1), l2, l3. }
    destruct (regex (name x)); simpl; [|apply Hrest].
    case_bool_decide as Hin; simpl; [|apply Hrest].
    destruct o1 as [|y o1]; simpl; intros [= -> Hl]; [|by eapply Hrest].
    assert (b ∈ latest_occurrences regex l) as Hb
      by (rewrite Hl, elem_of_app, elem_of_cons; auto).
    apply latest_is_last in Hb as (k1 & k2 & -> & Hb).
    by exists [], k1, k2.
Qed.

Example resolve_scenario :
  getMatchingChangesInOrder
    [mkChange "/data/feed/a.json" add 1; mkChange "/dat.json" change 2;
     mkChange "/data/feed/a.json" change 3; mkChange "/data/feed/B.JSON" add 4;
     mkChange "/data/feed/a.json" del 5]
    JSON_PATH_REGEX
  = [mkChange "/data/feed/B.JSON" add 4; mkChange "/data/feed/a.json" del 5].
Proof. reflexivity. Qed.

(** C3. For every list of change events and every name pattern, the output
    of [getMatchingChangesInOrder] is a subsequence of the input with at
    most one event per name; its names are exactly the names of the input
    that match the pattern; every surviving event is the latest occurrence
    of its name, and two surviving events stand in the order of these
    latest occurrences. The output is the input restricted to the matching
    events that no later event of the same name follows. *)
Theorem resolver_keeps_latest_in_order (changes : list ChangeEvent) (regex : RegExp) :
  let out := getMatchingChangesInOrder changes regex in
  out `sublist_of` changes
  ∧ NoDup (name <$> out)
  ∧ (∀ n, n ∈ name <$> out ↔ n ∈ name <$> changes ∧ regex n = true)
  ∧ (∀ c, c ∈ out → ∃ l1 l2, changes = l1 ++ c :: l2 ∧ name c ∉ name <$> l2)
  ∧ (∀ o1 a o2 b o3, out = o1 ++ a :: o2 ++ b :: o3 →
       ∃ l1 l2 l3, changes = l1 ++ a :: l2 ++ b :: l3
         ∧ (name a ∉ name <$> (l2 ++ b :: l3)) ∧ (name b ∉ name <$> l3))
  ∧ out = latest_occurrences regex changes.
Proof.
  cbv zeta. rewrite resolve_latest. split_and!.
  - apply latest_sublist.
  - apply latest_NoDup.
  - apply latest_names.
  - apply latest_is_last.
  - intros o1 a o2 b o3. apply latest_order.
  - done.
Qed.

(** ** The orchestrator *)

Lemma doCrawl_state archive crawlSource crawlDataset crawlDatasetVersion handlerFn w :
  doCrawl archive crawlSource crawlDataset crawlDatasetVersion handlerFn w =
  match db_get_meta (src_id crawlSource) crawlDataset w with
  | Some st =>
      if meta_crawlDatasetVersion st =? crawlDatasetVersion
      then crawl_from_state archive crawlSource crawlDataset crawlDatasetVersion
             handlerFn false (meta_crawlSourceVersion st) w
      else crawl_from_state archive crawlSource crawlDataset crawlDatasetVersion
             handlerFn true 0 w
  | None => crawl_from_state archive crawlSource crawlDataset crawlDatasetVersion
              handlerFn false 0 w
  end.
Proof.
  unfold doCrawl, crawl_from_state.
  destruct (db_get_meta _ _ _) as [st|]; simpl.
  - destruct (meta_crawlDatasetVersion st =? crawlDatasetVersion); simpl;
      destruct (archive_info archive); simpl; reflexivity.
  - destruct (archive_info archive); simpl; reflexivity.
Qed.

(** C6, as stated, fails: with no checkpoint stored the handler is given
    [resetRequired = false] (the probe resolves). *)
Lemma absent_checkpoint_no_reset_example :
  db_get_meta (src_id alice) "crawl_posts" fresh_world = None
  ∧ ∃ w, doCrawl (archive_of "dat://alice" (Some 2) [] []) alice "crawl_posts"
           TABLE_VERSION reset_probe fresh_world = Resolved w.
Proof. split; [reflexivity|]. eexists. vm_compute. reflexivity. Qed.

(** C6, amended. When no checkpoint is stored for the dataset and the
    source, [doCrawl] treats the stored source version as 0 (the window
    starts at version 1) and gives the handler [resetRequired = false]. *)
Theorem absent_checkpoint_starts_at_zero_without_reset
    archive crawlSource crawlDataset crawlDatasetVersion handlerFn w :
  db_get_meta (src_id crawlSource) crawlDataset w = None →
  doCrawl archive crawlSource crawlDataset crawlDatasetVersion handlerFn w =
  let current := default 0 (archive_info archive) in
  match archive_history archive (0 + 1) (current + 1) with
  | None => Rejected w
  | Some changes =>
      match handlerFn changes false
              (emit (CrawlDatasetStart (archive_url archive) crawlDataset
                       (0 + 1) (current + 1)) w) with
      | Rejected w' => Rejected w'
      | Resolved w' =>
          Resolved
            (emit (CrawlDatasetFinish (archive_url archive) crawlDataset
                     (0 + 1) (current + 1))
               (doCheckpoint crawlDataset crawlDatasetVersion crawlSource current w'))
      end
  end.
Proof. intros Hnone. rewrite doCrawl_state, Hnone. reflexivity. Qed.

Lemma absent_checkpoint_witness :
  doCrawl (archive_of "dat://alice" (Some 2) [] []) alice "crawl_posts"
    TABLE_VERSION reset_probe fresh_world
  = Resolved
      (emit (CrawlDatasetFinish "dat://alice" "crawl_posts" 1 3)
         (doCheckpoint "crawl_posts" TABLE_VERSION alice 2
            (emit (CrawlDatasetStart "dat://alice" "crawl_posts" 1 3) fresh_world))).
Proof.
  exact (absent_checkpoint_starts_at_zero_without_reset
           (archive_of "dat://alice" (Some 2) [] []) alice "crawl_posts"
           TABLE_VERSION reset_probe fresh_world eq_refl).
Defined.

(** ** Checkpoints written by a run *)

Section Tracking.

Variables (ds : string) (ep sid : Z).

Lemma tracks_refl w : tracks ds ep sid w w [].
Proof. exists []. by rewrite app_nil_r. Qed.

Lemma checkpoint_same_meta w w' :
  crawl_sources_meta w' = crawl_sources_meta w →
  checkpoint ds sid w' = checkpoint ds sid w.
Proof. unfold checkpoint, db_get_meta. by intros ->. Qed.

Lemma tracks_trans w1 w2 w3 vs vs' :
  tracks ds ep sid w1 w2 vs → tracks ds ep sid w2 w3 vs' →
  tracks ds ep sid w1 w3 (vs ++ vs').
Proof.
  intros (n1 & Hl1 & Hv1 & Hc1) (n2 & Hl2 & Hv2 & Hc2).
  exists (n1 ++ n2). split_and!.
  - by rewrite Hl2, Hl1, (assoc_L (++)).
  - unfold stored_versions in *. by rewrite omap_app, Hv1, Hv2.
  - rewrite last_app. destruct (last vs') as [v'|]; [done|].
    destruct (last vs) as [v|].
    + by rewrite (checkpoint_same_meta _ _ Hc2).
    + by rewrite Hc2.
Qed.

Lemma tracks_before w1 w2 w3 vs :
  tracks ds ep sid w1 w2 [] → tracks ds ep sid w2 w3 vs → tracks ds ep sid w1 w3 vs.
Proof. apply (tracks_trans w1 w2 w3 [] vs). Qed.

Lemma tracks_after w1 w2 w3 vs :
  tracks ds ep sid w1 w2 vs → tracks ds ep sid w2 w3 [] → tracks ds ep sid w1 w3 vs.
Proof.
  intros H1 H2. rewrite <- (app_nil_r vs). by apply (tracks_trans w1 w2 w3).
Qed.

Lemma tracks_emit e w : tracks ds ep sid w (emit e w) [].
Proof. exists [Emit e]. done. Qed.

Lemma tracks_set_clock now w : tracks ds ep sid w (set_clock now w) [].
Proof. exists []. simpl. by rewrite app_nil_r. Qed.

Lemma tracks_posts_stmt stmt w : on_posts stmt → tracks ds ep sid w (db_run stmt w) [].
Proof. intros H. exists [Run stmt]. by destruct stmt. Qed.

Lemma find_app_r {A} (p : A → bool) l x :
  Forall (λ y, p y = false) l → p x = true → List.find p (l ++ [x]) = Some x.
Proof.
  induction 1 as [|y l Hy _ IH]; intros Hx; simpl; [by rewrite Hx|].
  rewrite Hy. by apply IH.
Qed.

Lemma meta_key_refl (src : CrawlSourceRecord) v now :
  meta_key ds (src_id src) (mkMeta ds ep (src_id src) v now) = true.
Proof.
  unfold meta_key; simpl. by rewrite String.eqb_refl, Z.eqb_refl.
Qed.

Lemma doCheckpoint_get (src : CrawlSourceRecord) v w :
  db_get_meta (src_id src) ds (doCheckpoint ds ep src v w)
  = Some (mkMeta ds ep (src_id src) v (clock w)).
Proof.
  unfold db_get_meta, doCheckpoint; simpl.
  apply find_app_r; [|apply meta_key_refl].
  apply Forall_forall. intros r Hr%list_elem_of_In%filter_In.
  destruct Hr as [_ Hr]. by apply negb_true_iff in Hr.
Qed.

Lemma tracks_checkpoint (src : CrawlSourceRecord) v w :
  sid = src_id src → tracks ds ep sid w (doCheckpoint ds ep src v w) [v].
Proof.
  intros ->.
  exists [Run (DeleteMeta ds (src_id src));
          Run (InsertMeta (mkMeta ds ep (src_id src) v (clock w)))].
  split_and!.
  - unfold doCheckpoint, db_run, record; simpl. by rewrite <- (assoc_L (++)).
  - unfold stored_versions; simpl. by rewrite meta_key_refl.
  - simpl. unfold checkpoint. by rewrite doCheckpoint_get.
Qed.

Lemma tracks_effective w w' vs :
  tracks ds ep sid w w' vs →
  effective_version ds ep sid w' = default (effective_version ds ep sid w) (last vs).
Proof.
  intros (new & _ & _ & Hc). unfold effective_version.
  destruct (last vs) as [v|]; simpl.
  - by rewrite Hc, Z.eqb_refl.
  - by rewrite (checkpoint_same_meta _ _ Hc).
Qed.

End Tracking.

(** ** The posts crawler *)

Lemma StronglySorted_sublist {A} (R : relation A) (k l : list A) :
  k `sublist_of` l → StronglySorted R l → StronglySorted R k.
Proof.
  induction 1 as [|x k l Hsub IH|x k l Hsub IH]; intros Hs; [done|..].
  - apply StronglySorted_cons in Hs as [Hx Hs].
    apply StronglySorted_cons. split; [|by apply IH].
    apply Forall_forall. intros y Hy. eapply Forall_forall; [exact Hx|].
    by eapply elem_of_sublist.
  - apply StronglySorted_cons in Hs as [_ Hs]. by apply IH.
Qed.

Section PostsFacts.

Context (new_URL : string → option URLRecord)
        (JSON_parse_valid : string → option Post)
        (Number_Date : option string → Js.number).

Local Abbreviation crawlPost' := (crawlPost new_URL JSON_parse_valid Number_Date).
Local Abbreviation crawlPosts' := (crawlPosts new_URL JSON_parse_valid Number_Date).
Local Abbreviation crawlSite_handler' := (crawlSite_handler new_URL JSON_parse_valid Number_Date).
Local Abbreviation crawlSite' := (crawlSite new_URL JSON_parse_valid Number_Date).
Local Abbreviation tracks_posts src := (tracks "crawl_posts" TABLE_VERSION (src_id src)).

Lemma checkpoint_progress_tracks archive src n e p w :
  tracks_posts src w
    (emitProgressEvent (archive_url archive) "crawl_posts" p n
       (doCheckpoint "crawl_posts" TABLE_VERSION src (version e) w))
    [version e].
Proof.
  eapply tracks_after; [by apply tracks_checkpoint|apply tracks_emit].
Qed.

Lemma crawlPost_tracks archive src n e p w :
  ∃ vs, vs `sublist_of` [version e]
    ∧ tracks_posts src w (iteration_world (crawlPost' archive src n e p w)) vs.
Proof.
  assert (∀ stmt ev, on_posts stmt →
            tracks_posts src w
              (emitProgressEvent (archive_url archive) "crawl_posts" (p + 1) n
                 (doCheckpoint "crawl_posts" TABLE_VERSION src (version e)
                    (emit ev (db_run stmt w))))
              [version e]) as Happlied.
  { intros stmt ev Hstmt.
    eapply tracks_before; [by apply tracks_posts_stmt|].
    eapply tracks_before; [apply tracks_emit|].
    apply checkpoint_progress_tracks. }
  assert (∃ vs, vs `sublist_of` [version e] ∧ tracks_posts src w w vs) as Hsame.
  { exists []. split; [apply sublist_nil_l|apply tracks_refl]. }
  unfold crawlPost.
  destruct (type e); simpl;
    try (exists [version e]; split; [done|]; by apply Happlied).
  all: destruct (archive_readFile archive (name e)) as [postString|]; simpl; [|done].
  all: destruct (JSON_parse_valid postString) as [post|]; simpl; [|done].
  all: destruct (get new_URL (archive_url archive) (name e) w) as [[row|]|]; simpl;
    [| |done].
  all: exists [version e]; split; [done|]; by apply Happlied.
Qed.

Lemma crawlPosts_tracks archive src n l p w :
  ∃ vs, vs `sublist_of` (version <$> l)
    ∧ tracks_posts src w (world_of (crawlPosts' archive src n l p w)) vs.
Proof.
  revert p w. induction l as [|e l IH]; intros p w; simpl.
  - exists []. split; [done|apply tracks_refl].
  - destruct (crawlPost_tracks archive src n e p w) as (vs1 & Hs1 & Ht1).
    destruct (crawlPost' archive src n e p w) as [p' w'|w'|w']; simpl in *.
    + destruct (IH p' w') as (vs2 & Hs2 & Ht2).
      exists (vs1 ++ vs2). split.
      * by apply (sublist_app _ [version e]).
      * by eapply tracks_trans.
    + exists vs1. split; [|done].
      by apply (sublist_inserts_r (version <$> l)) in Hs1.
    + exists vs1. split; [|done].
      by apply (sublist_inserts_r (version <$> l)) in Hs1.
Qed.

Lemma crawlSite_handler_tracks archive src changes (resetRequired : bool) w :
  ∃ vs, vs `sublist_of` ((if resetRequired then [0] else []) ++ (version <$> changes))
    ∧ tracks_posts src w
        (world_of (crawlSite_handler' archive src changes resetRequired w)) vs.
Proof.
  unfold crawlSite_handler.
  set (changedPosts := getMatchingChangesInOrder changes JSON_PATH_REGEX).
  set (w1 := if resetRequired then _ else w).
  assert (tracks_posts src w w1 (if resetRequired then [0] else [])) as Hreset.
  { subst w1. destruct resetRequired; [|apply tracks_refl].
    eapply tracks_before; [|by apply tracks_checkpoint].
    by apply tracks_posts_stmt. }
  set (w2 := emitProgressEvent _ _ _ _ w1).
  destruct (crawlPosts_tracks archive src (Z.of_nat (length changedPosts))
              changedPosts 0 w2) as (vs & Hsub & Ht).
  exists ((if resetRequired then [0] else []) ++ vs). split.
  - apply sublist_app; [done|]. etrans; [exact Hsub|].
    apply fmap_sublist. subst changedPosts. rewrite resolve_latest.
    apply latest_sublist.
  - eapply tracks_trans; [exact Hreset|].
    eapply tracks_before; [apply tracks_emit|done].
Qed.

Lemma crawl_from_state_tracks archive src (resetRequired : bool) v w :
  let o := crawl_from_state archive src "crawl_posts" TABLE_VERSION
             (crawlSite_handler' archive src) resetRequired v w in
  let current := default 0 (archive_info archive) in
  match archive_history archive (v + 1) (current + 1) with
  | None => o = Rejected w
  | Some changes =>
      ∃ vs, vs `sublist_of`
              ((if resetRequired then [0] else []) ++ (version <$> changes)) ++ [current]
        ∧ tracks_posts src w (world_of o) vs
        ∧ ∀ w', o = Resolved w' →
                checkpoint "crawl_posts" (src_id src) w' = Some (TABLE_VERSION, current)
  end.
Proof.
  cbv zeta. unfold crawl_from_state.
  destruct (archive_history archive _ _) as [changes|]; [|done].
  set (w1 := emit _ w).
  destruct (crawlSite_handler_tracks archive src changes resetRequired w1)
    as (vs & Hsub & Ht).
  assert (tracks_posts src w (world_of (crawlSite_handler' archive src changes
                                          resetRequired w1)) vs) as Ht'.
  { eapply tracks_before; [apply tracks_emit|done]. }
  destruct (crawlSite_handler' archive src changes resetRequired w1) as [w2|w2];
    simpl in *.
  - exists (vs ++ [default 0 (archive_info archive)]). split_and!.
    + by apply sublist_app.
    + eapply tracks_trans; [exact Ht'|].
      eapply tracks_after; [by apply tracks_checkpoint|apply tracks_emit].
    + intros w' [= <-]. unfold checkpoint, db_get_meta. simpl.
      change (List.find _ _) with
        (db_get_meta (src_id src) "crawl_posts"
           (doCheckpoint "crawl_posts" TABLE_VERSION src
              (default 0 (archive_info archive)) w2)).
      by rewrite doCheckpoint_get.
  - exists vs. split_and!; [by apply sublist_inserts_r|done|done].
Qed.

(** A run that resolves leaves the checkpoint at the archive's current
    version, whatever the handler did with the entries. *)
Lemma crawlSite_resolved_checkpoint archive src w w' :
  crawlSite' archive src w = Resolved w' →
  checkpoint "crawl_posts" (src_id src) w'
  = Some (TABLE_VERSION, default 0 (archive_info archive)).
Proof.
  unfold crawlSite. rewrite doCrawl_state.
  assert (∀ r v,
            crawl_from_state archive src "crawl_posts" TABLE_VERSION
              (crawlSite_handler' archive src) r v w = Resolved w' →
            checkpoint "crawl_posts" (src_id src) w'
            = Some (TABLE_VERSION, default 0 (archive_info archive))) as Hfrom.
  { intros r v Ho. pose proof (crawl_from_state_tracks archive src r v w) as H.
    cbv zeta in H. destruct (archive_history archive _ _).
    - destruct H as (vs & _ & _ & H). by apply H.
    - congruence. }
  destruct (db_get_meta _ _ _) as [st|]; [destruct (_ =? _)|]; apply Hfrom.
Qed.

(** C4. When the stored checkpoint of a dataset and a source carries an
    epoch that differs from the caller's, [doCrawl] gives the handler
    [resetRequired = true] (and the window that starts at version 1); the
    posts handler then first deletes every row of the source from
    [crawl_posts] and directly afterwards checkpoints [crawlSourceVersion = 0],
    before any other statement of the run. *)
Theorem epoch_change_forces_reset
    archive crawlSource crawlDataset crawlDatasetVersion handlerFn w st changes :
  db_get_meta (src_id crawlSource) crawlDataset w = Some st →
  meta_crawlDatasetVersion st ≠ crawlDatasetVersion →
  archive_history archive (0 + 1) (default 0 (archive_info archive) + 1) = Some changes →
  doCrawl archive crawlSource crawlDataset crawlDatasetVersion handlerFn w
  = match handlerFn changes true
            (emit (CrawlDatasetStart (archive_url archive) crawlDataset (0 + 1)
                     (default 0 (archive_info archive) + 1)) w) with
    | Rejected w' => Rejected w'
    | Resolved w' =>
        Resolved
          (emit (CrawlDatasetFinish (archive_url archive) crawlDataset (0 + 1)
                   (default 0 (archive_info archive) + 1))
             (doCheckpoint crawlDataset crawlDatasetVersion crawlSource
                (default 0 (archive_info archive)) w'))
    end
  ∧ (∀ w1, ∃ rest,
        log (world_of (crawlSite_handler' archive crawlSource changes true w1))
        = log w1
          ++ [Run (DeletePostsOfSource (src_id crawlSource));
              Run (DeleteMeta "crawl_posts" (src_id crawlSource));
              Run (InsertMeta (mkMeta "crawl_posts" TABLE_VERSION (src_id crawlSource)
                                      0 (clock w1)))]
          ++ rest)
  ∧ (∀ w1, Forall (λ r, post_crawlSourceId r ≠ src_id crawlSource)
             (crawl_posts (db_run (DeletePostsOfSource (src_id crawlSource)) w1))).
Proof.
  intros Hst Hne Hhist. split_and!.
  - rewrite doCrawl_state, Hst.
    destruct (Z.eqb_spec (meta_crawlDatasetVersion st) crawlDatasetVersion); [done|].
    unfold crawl_from_state. by rewrite Hhist.
  - intros w1. unfold crawlSite_handler.
    set (changedPosts := getMatchingChangesInOrder changes JSON_PATH_REGEX).
    set (w2 := emitProgressEvent _ _ _ _ _).
    destruct (crawlPosts_tracks archive crawlSource (Z.of_nat (length changedPosts))
                changedPosts 0 w2) as (vs & _ & (new & Hlog & _)).
    exists (Emit (CrawlDatasetProgress (archive_url archive) "crawl_posts" 0
                    (Z.of_nat (length changedPosts))) :: new).
    rewrite Hlog. subst w2. simpl. by rewrite <- !(assoc_L (++)).
  - intros w1. simpl. apply Forall_forall.
    intros r Hr%list_elem_of_In%filter_In. destruct Hr as [_ Hr].
    apply negb_true_iff in Hr. by destruct (Z.eqb_spec (post_crawlSourceId r)
                                              (src_id crawlSource)).
Qed.

Lemma crawlPost_applied_checkpoint archive src n e p w w' :
  crawlPost' archive src n e p w = Continue (p + 1) w' →
  checkpoint "crawl_posts" (src_id src) w' = Some (TABLE_VERSION, version e).
Proof.
  assert (∀ w0, checkpoint "crawl_posts" (src_id src)
                  (emitProgressEvent (archive_url archive) "crawl_posts" (p + 1) n
                     (doCheckpoint "crawl_posts" TABLE_VERSION src (version e) w0))
                = Some (TABLE_VERSION, version e)) as Hcp.
  { intros w0. unfold checkpoint.
    change (db_get_meta _ _ (emitProgressEvent _ _ _ _ ?x))
      with (db_get_meta (src_id src) "crawl_posts" x).
    by rewrite doCheckpoint_get. }
  unfold crawlPost.
  destruct (type e); simpl; try (intros [= <-]; apply Hcp).
  all: destruct (archive_readFile archive (name e)) as [postString|]; simpl; [|done].
  all: destruct (JSON_parse_valid postString) as [post|]; simpl; [|intros [= ? _]; lia].
  all: destruct (get new_URL (archive_url archive) (name e) w) as [[row|]|]; simpl;
    [| |done].
  all: intros [= <-]; apply Hcp.
Qed.

(** C2, amended. An add/change entry whose file is read but fails to parse
    or to validate is skipped and nothing else: the iteration changes
    neither the tables nor the progress count, the loop goes on with the
    entries that follow, and no checkpoint is written for the entry. The
    checkpoint is not held back for it: every entry that is applied stores
    its own version, and a run on an archive whose files can all be read
    stores the archive's current version when it resolves. *)
Theorem invalid_post_is_skipped archive crawlSource numUpdates e rest progress w postString :
  type e ≠ del →
  archive_readFile archive (name e) = Some postString →
  JSON_parse_valid postString = None →
  crawlPost' archive crawlSource numUpdates e progress w = Continue progress w
  ∧ crawlPosts' archive crawlSource numUpdates (e :: rest) progress w
    = crawlPosts' archive crawlSource numUpdates rest progress w
  ∧ (∀ e' p0 w0 w',
       crawlPost' archive crawlSource numUpdates e' p0 w0 = Continue (p0 + 1) w' →
       checkpoint "crawl_posts" (src_id crawlSource) w' = Some (TABLE_VERSION, version e'))
  ∧ (∀ w0 w',
       (∀ path, is_Some (archive_readFile archive path)) →
       crawlSite' archive crawlSource w0 = Resolved w' →
       checkpoint "crawl_posts" (src_id crawlSource) w'
       = Some (TABLE_VERSION, default 0 (archive_info archive))).
Proof.
  intros Htype Hread Hparse.
  assert (crawlPost' archive crawlSource numUpdates e progress w = Continue progress w)
    as Hskip.
  { unfold crawlPost. rewrite Hread, Hparse. by destruct (type e). }
  split_and!; [done| | |].
  - simpl. by rewrite Hskip.
  - intros e' p0 w0 w'. apply crawlPost_applied_checkpoint.
  - intros w0 w' _. apply crawlSite_resolved_checkpoint.
Qed.

End PostsFacts.

Lemma epoch_change_witness :
  crawlSite node_URL brace_posts date_stub five_versions_archive alice old_epoch_world
  = match crawlSite_handler node_URL brace_posts date_stub five_versions_archive alice
            [mkChange "/data/feed/a.json" add 2; mkChange "/data/feed/a.json" change 4]
            true
            (emit (CrawlDatasetStart "dat://alice" "crawl_posts" 1 6) old_epoch_world) with
    | Rejected w' => Rejected w'
    | Resolved w' =>
        Resolved (emit (CrawlDatasetFinish "dat://alice" "crawl_posts" 1 6)
                    (doCheckpoint "crawl_posts" TABLE_VERSION alice 5 w'))
    end.
Proof.
  exact (proj1 (epoch_change_forces_reset node_URL brace_posts date_stub
                  five_versions_archive alice "crawl_posts" TABLE_VERSION
                  (crawlSite_handler node_URL brace_posts date_stub
                     five_versions_archive alice)
                  old_epoch_world (mkMeta "crawl_posts" 0 7 5 900)
                  [mkChange "/data/feed/a.json" add 2;
                   mkChange "/data/feed/a.json" change 4]
                  eq_refl ltac:(discriminate) eq_refl)).
Defined.

Example epoch_change_run :
  log (world_of (crawlSite node_URL brace_posts date_stub five_versions_archive
                   alice old_epoch_world))
  = [Emit (CrawlDatasetStart "dat://alice" "crawl_posts" 1 6);
     Run (DeletePostsOfSource 7);
     Run (DeleteMeta "crawl_posts" 7);
     Run (InsertMeta (mkMeta "crawl_posts" 1 7 0 1000));
     Emit (CrawlDatasetProgress "dat://alice" "crawl_posts" 0 1);
     Run (InsertPost (mkPostRow 7 "/data/feed/a.json" 1000 "{a}"
                        (Js.of_Z 1546300800000) (Js.of_Z 0)));
     Emit (PostAdded "dat://alice");
     Run (DeleteMeta "crawl_posts" 7);
     Run (InsertMeta (mkMeta "crawl_posts" 1 7 4 1000));
     Emit (CrawlDatasetProgress "dat://alice" "crawl_posts" 1 1);
     Run (DeleteMeta "crawl_posts" 7);
     Run (InsertMeta (mkMeta "crawl_posts" 1 7 5 1000));
     Emit (CrawlDatasetFinish "dat://alice" "crawl_posts" 1 6)].
Proof. vm_compute. reflexivity. Qed.

(** C1: the code at the failing input. The file of version 2 cannot be
    read; the handler returns, and [doCrawl] still writes its final
    checkpoint: the stored version goes from 1, the last entry applied, to
    3, the archive's current version, and the post of version 3 is never
    indexed. *)
Theorem read_failure_still_checkpoints_current_version :
  let w := world_of (crawlSite node_URL brace_posts date_stub
                       unreadable_archive alice fresh_world) in
  archive_readFile unreadable_archive "/data/feed/b.json" = None
  ∧ post_pathname <$> crawl_posts w = ["/data/feed/a.json"]
  ∧ stored_versions "crawl_posts" (src_id alice) (log w) = [1; 3]
  ∧ checkpoint "crawl_posts" (src_id alice) w = Some (TABLE_VERSION, 3).
Proof. cbv zeta. split_and!; vm_compute; reflexivity. Qed.

(** C2, as stated, fails: the file of version 1 is not a valid post and is
    skipped; the stored checkpoint is 2 after the run, past the skipped
    entry, and a second run does not attempt the entry again (its window
    is empty and nothing is read or written for it). *)
Lemma invalid_post_checkpoint_advances_example :
  let w1 := world_of (crawlSite node_URL brace_posts date_stub
                        invalid_archive alice fresh_world) in
  let w2 := world_of (crawlSite node_URL brace_posts date_stub
                        invalid_archive alice w1) in
  brace_posts "oops" = None
  ∧ checkpoint "crawl_posts" (src_id alice) w1 = Some (TABLE_VERSION, 2)
  ∧ post_pathname <$> crawl_posts w1 = ["/data/feed/b.json"]
  ∧ archive_history invalid_archive (2 + 1) (2 + 1) = Some []
  ∧ crawl_posts w2 = crawl_posts w1.
Proof. cbv zeta. split_and!; vm_compute; reflexivity. Qed.

Lemma invalid_post_witness :
  crawlPosts node_URL brace_posts date_stub invalid_archive alice 2
    [mkChange "/data/feed/a.json" add 1; mkChange "/data/feed/b.json" add 2] 0 fresh_world
  = crawlPosts node_URL brace_posts date_stub invalid_archive alice 2
      [mkChange "/data/feed/b.json" add 2] 0 fresh_world.
Proof.
  exact (proj1 (proj2 (invalid_post_is_skipped node_URL brace_posts date_stub
                         invalid_archive alice 2 (mkChange "/data/feed/a.json" add 1)
                         [mkChange "/data/feed/b.json" add 2] 0 fresh_world "oops"
                         ltac:(discriminate) eq_refl eq_refl))).
Defined.

(** ** Monotonicity of the stored version *)

Lemma sorted_below_last (x : Z) (l : list Z) :
  StronglySorted Z.le (x :: l) → ∀ a, a ∈ x :: l → a ≤ default x (last l).
Proof.
  destruct l as [|y l _] using rev_ind; simpl.
  - intros _ a ->%list_elem_of_singleton. lia.
  - rewrite last_snoc; simpl. rewrite app_comm_cons.
    intros [Hle _]%StronglySorted_app a [Ha| ->%list_elem_of_singleton]%elem_of_app.
    + apply Hle; [done|]. by apply list_elem_of_singleton.
    + lia.
Qed.

Lemma sorted_chain (x : Z) (l1 l2 : list Z) :
  StronglySorted Z.le (x :: l1) →
  StronglySorted Z.le (default x (last l1) :: l2) →
  StronglySorted Z.le (x :: l1 ++ l2).
Proof.
  intros H1 H2. rewrite app_comm_cons. apply StronglySorted_app_2.
  - intros a b Ha Hb. pose proof (sorted_below_last x l1 H1 a Ha) as Hle.
    apply StronglySorted_cons in H2 as [H2 _].
    rewrite Forall_forall in H2. specialize (H2 b Hb). lia.
  - done.
  - by apply StronglySorted_cons in H2 as [_ H2].
Qed.

Lemma sorted_window (stored current : Z) (changes : list ChangeEvent) (reset : list Z) :
  stored ≤ current →
  StronglySorted Z.le (version <$> changes) →
  Forall (λ c, stored + 1 ≤ version c ≤ current) changes →
  Forall (λ z, z = stored) reset →
  StronglySorted Z.le (stored :: (reset ++ (version <$> changes)) ++ [current]).
Proof.
  intros Hle Hsorted Hbounds Hreset.
  assert (Forall (λ z, stored ≤ z ≤ current) (version <$> changes)) as Hv.
  { apply Forall_fmap. eapply Forall_impl; [exact Hbounds|]. simpl. lia. }
  assert (StronglySorted Z.le (reset ++ (version <$> changes))) as Hrc.
  { apply StronglySorted_app_2; [|
      |done].
    - intros a b Ha Hb. rewrite Forall_forall in Hreset, Hv.
      rewrite (Hreset a Ha). by apply Hv.
    - clear -Hreset. induction Hreset as [|z reset -> Hall IH]; [constructor|].
      constructor; [done|]. eapply Forall_impl; [exact Hall|]. simpl. lia. }
  apply StronglySorted_cons. split.
  - apply Forall_app. split; [apply Forall_app; split|].
    + eapply Forall_impl; [exact Hreset|]. simpl. lia.
    + eapply Forall_impl; [exact Hv|]. simpl. lia.
    + by constructor.
  - apply StronglySorted_app_2; [|done|by repeat constructor].
    intros a b [Ha|Ha]%elem_of_app ->%list_elem_of_singleton.
    + rewrite Forall_forall in Hreset. rewrite (Hreset a Ha). done.
    + rewrite Forall_forall in Hv. by apply Hv.
Qed.

Section Monotone.

Context (new_URL : string → option URLRecord)
        (JSON_parse_valid : string → option Post)
        (Number_Date : option string → Js.number).

Local Abbreviation crawlSite' := (crawlSite new_URL JSON_parse_valid Number_Date).
Local Abbreviation crawlSite_handler' :=
  (crawlSite_handler new_URL JSON_parse_valid Number_Date).
Local Abbreviation eff src := (effective_version "crawl_posts" TABLE_VERSION (src_id src)).
Local Abbreviation tracks_posts src := (tracks "crawl_posts" TABLE_VERSION (src_id src)).

Lemma crawl_from_state_sorted archive src (resetRequired : bool) stored w :
  archive_window_ok archive stored →
  (resetRequired = true → stored = 0) →
  ∃ vs,
    tracks_posts src w
      (world_of (crawl_from_state archive src "crawl_posts" TABLE_VERSION
                   (crawlSite_handler' archive src) resetRequired stored w)) vs
    ∧ StronglySorted Z.le (stored :: vs).
Proof.
  intros [Hle Hwin] Hreset.
  pose proof (crawl_from_state_tracks new_URL JSON_parse_valid Number_Date
                archive src resetRequired stored w) as H.
  cbv zeta in H.
  destruct (archive_history archive _ _) as [changes|] eqn:Hhist.
  - destruct H as (vs & Hsub & Ht & _). exists vs. split; [done|].
    destruct (Hwin changes eq_refl) as [Hsorted Hbounds].
    eapply StronglySorted_sublist.
    + apply sublist_skip. exact Hsub.
    + apply sorted_window; [done..|].
      destruct resetRequired; [|constructor].
      rewrite Hreset by done. by repeat constructor.
  - rewrite H. simpl. exists []. split; [apply tracks_refl|by repeat constructor].
Qed.

Lemma crawlSite_sorted archive src w :
  archive_window_ok archive (eff src w) →
  ∃ vs, tracks_posts src w (world_of (crawlSite' archive src w)) vs
        ∧ StronglySorted Z.le (eff src w :: vs).
Proof.
  unfold crawlSite. rewrite doCrawl_state.
  unfold effective_version, checkpoint.
  destruct (db_get_meta _ _ _) as [st|]; simpl.
  - destruct (meta_crawlDatasetVersion st =? TABLE_VERSION); intros Hok.
    + by apply crawl_from_state_sorted.
    + by apply crawl_from_state_sorted.
  - intros Hok. by apply crawl_from_state_sorted.
Qed.

Lemma crawl_runs_sorted runs src w :
  windows_ok new_URL JSON_parse_valid Number_Date runs src w →
  ∃ vs, tracks_posts src w
          (crawl_runs new_URL JSON_parse_valid Number_Date runs src w) vs
        ∧ StronglySorted Z.le (eff src w :: vs).
Proof.
  revert w. induction runs as [|[now archive] runs IH]; intros w; simpl.
  - intros _. exists []. split; [apply tracks_refl|by repeat constructor].
  - intros [Hok Hrest].
    destruct (crawlSite_sorted archive src (set_clock now w) Hok) as (vs1 & Ht1 & Hs1).
    destruct (IH _ Hrest) as (vs2 & Ht2 & Hs2).
    exists (vs1 ++ vs2). split.
    + eapply tracks_before; [apply tracks_set_clock|]. by eapply tracks_trans.
    + pose proof (tracks_effective _ _ _ _ _ _ Ht1) as Heff.
      change (eff src (set_clock now w)) with (eff src w) in *.
      apply sorted_chain; [done|]. by rewrite <- Heff.
Qed.

(** C5, amended. Over every sequence of runs of the posts crawler for a
    source, each on an archive with a well-formed window, the versions
    written to the stored checkpoint never decrease from one to the next;
    they start from the stored version when the stored epoch is the
    crawler's, and from 0 when it is not (the reset of a run invoked with a
    changed epoch stores 0). *)
Theorem stored_version_never_decreases runs crawlSource w :
  windows_ok new_URL JSON_parse_valid Number_Date runs crawlSource w →
  ∃ new,
    log (crawl_runs new_URL JSON_parse_valid Number_Date runs crawlSource w)
    = log w ++ new
    ∧ StronglySorted Z.le
        (effective_version "crawl_posts" TABLE_VERSION (src_id crawlSource) w
         :: stored_versions "crawl_posts" (src_id crawlSource) new).
Proof.
  intros (vs & (new & Hlog & Hvs & _) & Hsorted)%crawl_runs_sorted.
  exists new. by rewrite Hvs.
Qed.

End Monotone.

(** C5, as stated, fails: the stored version is 5; the run invoked with the
    changed epoch stores 0, then 4 and 5. *)
Lemma epoch_change_lowers_stored_version_example :
  checkpoint "crawl_posts" (src_id alice) old_epoch_world = Some (0, 5)
  ∧ stored_versions "crawl_posts" (src_id alice)
      (log (world_of (crawlSite node_URL brace_posts date_stub
                        five_versions_archive alice old_epoch_world)))
    = [0; 4; 5].
Proof. split; vm_compute; reflexivity. Qed.

Example two_runs_stored_versions :
  stored_versions "crawl_posts" (src_id alice)
    (log (crawl_runs node_URL brace_posts date_stub two_runs alice fresh_world))
  = [4; 5; 6; 7].
Proof. vm_compute. reflexivity. Qed.

Lemma stored_version_witness :
  ∃ new,
    log (crawl_runs node_URL brace_posts date_stub two_runs alice fresh_world)
    = log fresh_world ++ new
    ∧ StronglySorted Z.le
        (effective_version "crawl_posts" TABLE_VERSION (src_id alice) fresh_world
         :: stored_versions "crawl_posts" (src_id alice) new).
Proof.
  apply (stored_version_never_decreases node_URL brace_posts date_stub
           two_runs alice fresh_world).
  simpl. split_and!; [| |done].
  - split; [vm_compute; discriminate|].
    intros changes H. vm_compute in H. injection H as <-.
    split; simpl; repeat constructor; vm_compute; discriminate.
  - split; [vm_compute; discriminate|].
    intros changes H. vm_compute in H. injection H as <-.
    split; simpl; repeat constructor; vm_compute; discriminate.
Defined.

(** ** The upsert of a post *)

Lemma post_key_eq sid path r :
  post_key sid path r = true → post_crawlSourceId r = sid ∧ post_pathname r = path.
Proof.
  unfold post_key. intros [H1 H2]%andb_true_iff.
  split; [by apply Z.eqb_eq|by apply String.eqb_eq].
Qed.

Lemma find_existsb {A} (p : A → bool) (l : list A) :
  existsb p l = match List.find p l with Some _ => true | None => false end.
Proof. induction l as [|x l IH]; simpl; [done|]. by destruct (p x). Qed.

Lemma upsert_row_keyed row t :
  Forall (λ r, post_key (post_crawlSourceId row) (post_pathname row) r = true → r = row)
         (upsert_row row t).
Proof.
  unfold upsert_row.
  set (key := post_key (post_crawlSourceId row) (post_pathname row)).
  destruct (existsb key t) eqn:Hex.
  - apply Forall_forall. intros r Hr%list_elem_of_In%in_map_iff.
    destruct Hr as (r0 & <- & _). destruct (key r0) eqn:Hk; [done|].
    intros Hk'. congruence.
  - apply Forall_app. split.
    + apply Forall_forall. intros r Hr%list_elem_of_In Hk.
      assert (existsb key t = true) by (apply existsb_exists; eauto). congruence.
    + by repeat constructor.
Qed.

Section Upsert.

Context (new_URL : string → option URLRecord)
        (JSON_parse_valid : string → option Post)
        (Number_Date : option string → Js.number).

Local Abbreviation crawlPost' := (crawlPost new_URL JSON_parse_valid Number_Date).
Local Abbreviation stored_row' := (stored_row Number_Date).

Lemma get_by_key archive src path u w :
  archive_url archive ≠ "" → path ≠ "" →
  new_URL (archive_url archive) = Some u →
  source_registered (url_origin u) src w →
  get new_URL (archive_url archive) path w
  = Some (List.find (post_key (src_id src) path) (crawl_posts w)).
Proof.
  intros Hurl Hpath Hu Hreg. unfold get.
  destruct (String.eqb_spec (archive_url archive) ""); [done|].
  rewrite Hu. destruct (String.eqb_spec path ""); [done|].
  f_equal. induction (crawl_posts w) as [|r t IH]; simpl; [done|].
  rewrite IH, Hreg. unfold post_key.
  rewrite (Z.eqb_sym (post_crawlSourceId r)), andb_comm. done.
Qed.

Lemma crawlPost_upsert archive src n e p w u postString post :
  archive_url archive ≠ "" → name e ≠ "" →
  new_URL (archive_url archive) = Some u →
  source_registered (url_origin u) src w →
  type e ≠ del →
  archive_readFile archive (name e) = Some postString →
  JSON_parse_valid postString = Some post →
  ∃ w', crawlPost' archive src n e p w = Continue (p + 1) w'
        ∧ crawl_posts w' = upsert_row (stored_row' src e post (clock w)) (crawl_posts w)
        ∧ crawl_sources w' = crawl_sources w.
Proof.
  intros Hurl Hname Hu Hreg Htype Hread Hparse.
  unfold crawlPost. rewrite Hread, Hparse, (get_by_key _ src _ u) by done.
  unfold upsert_row, stored_row; simpl. rewrite find_existsb.
  destruct (List.find _ _) as [row|];
    destruct (type e); try done; eexists; (split; [reflexivity|]); simpl;
    (split; [|done]).
  all: first [reflexivity|apply map_ext_in; intros r _].
  all: destruct (post_key (src_id src) (name e) r) eqn:Hk; [|done].
  all: by apply post_key_eq in Hk as [<- <-].
Qed.

Lemma get_misses_unregistered_origin url path u w :
  url ≠ "" →
  new_URL url = Some u →
  Forall (λ src, src_url src ≠ url_origin u) (crawl_sources w) →
  get new_URL url path w = Some None.
Proof.
  intros Hurl Hu Hnone. unfold get.
  destruct (String.eqb_spec url ""); [done|]. rewrite Hu. f_equal.
  assert (∀ sid, existsb (λ src, (src_id src =? sid)
                                  && String.eqb (src_url src) (url_origin u))
                   (crawl_sources w) = false) as Hex.
  { intros sid. induction Hnone as [|src l Hsrc _ IH]; simpl; [done|].
    rewrite IH, orb_false_r.
    destruct (String.eqb_spec (src_url src) (url_origin u)); [done|].
    apply andb_false_r. }
  induction (crawl_posts w) as [|r t IH]; simpl; [done|].
  by rewrite Hex, andb_false_r.
Qed.

(** When the origin that [new URL] gives for the archive's url is the url
    of no crawl source, [get] finds no row, whatever is stored, and an
    add/change entry is always inserted. *)
Lemma crawlPost_inserts_when_origin_is_unregistered
    archive src n e p w u postString post :
  archive_url archive ≠ "" →
  new_URL (archive_url archive) = Some u →
  Forall (λ s, src_url s ≠ url_origin u) (crawl_sources w) →
  type e ≠ del →
  archive_readFile archive (name e) = Some postString →
  JSON_parse_valid postString = Some post →
  ∃ w', crawlPost' archive src n e p w = Continue (p + 1) w'
        ∧ crawl_posts w' = crawl_posts w ++ [stored_row' src e post (clock w)]
        ∧ crawl_sources w' = crawl_sources w.
Proof.
  intros Hurl Hu Hnone Htype Hread Hparse.
  unfold crawlPost.
  rewrite Hread, Hparse, (get_misses_unregistered_origin _ _ u) by done.
  destruct (type e); try done; eexists; (split; [reflexivity|]); by split.
Qed.

End Upsert.

(** C8: the code at the failing input. [get] looks the stored row up by
    the origin that [new URL] gives for the archive's url; for a dat: url
    this is [null], the url of no crawl source, so the row stored by the
    first application is not found and the second application inserts a
    second row with the same [(crawlSourceId, pathname)] instead of
    overwriting the first, which is what the upsert as the specification
    words it would do. In the same way a post that is edited between two
    runs is stored twice. *)
Theorem second_application_inserts_a_duplicate_row :
  let e := mkChange "/data/feed/a.json" add 1 in
  let row now body :=
    mkPostRow 7 "/data/feed/a.json" now body (Js.of_Z 1546300800000) (Js.of_Z 0) in
  let w1 := iteration_world (crawlPost node_URL brace_posts date_stub
                               unreadable_archive alice 1 e 0 fresh_world) in
  let w2 := iteration_world (crawlPost node_URL brace_posts date_stub
                               unreadable_archive alice 1 e 0 (set_clock 2000 w1)) in
  node_URL "dat://alice" = Some (mkURL "null" "")
  ∧ crawl_sources w1 = [alice]
  ∧ crawl_posts w1 = [row 1000 "{a}"]
  ∧ get node_URL "dat://alice" "/data/feed/a.json" w1 = Some None
  ∧ crawl_posts w2 = [row 1000 "{a}"; row 2000 "{a}"]
  ∧ upsert_row (row 2000 "{a}") (crawl_posts w1) = [row 2000 "{a}"]
  ∧ crawl_posts (crawl_runs node_URL brace_posts date_stub post_then_edit alice fresh_world)
    = [row 1000 "{a}"; row 2000 "{a, edited}"].
Proof. cbv zeta. split_and!; vm_compute; reflexivity. Qed.

(** ** Search: the hops and the set of crawl sources *)

(** C7: the code at the failing input. With [hops] omitted the clamp
    yields [NaN], which is neither [1] nor [2]: the set of crawl sources
    stays undefined instead of being the user's own id, which it is when
    [hops] is given as 1. *)
Theorem omitted_hops_leave_sources_undefined (userCrawlSourceId : Z) (w : World) :
  clampHops None = Js.NaN
  ∧ crawlSourceIds (clampHops None) userCrawlSourceId w = None
  ∧ listSearchResults 42 scope_probe no_description (search_with_hops None) fresh_world
    = Some (mkSearchResults 42 [])
  ∧ listSearchResults 42 scope_probe no_description
      (search_with_hops (Some (Js.of_Z 1))) fresh_world
    = Some (mkSearchResults 42 [mkSearchResult "post" "dat://alice/p" "A" "" 7]).
Proof. split_and!; vm_compute; reflexivity. Qed.

Lemma clampHops_number (n : Js.number) :
  n ≠ Js.NaN →
  Js.strict_eq (clampHops (Some n)) (Js.of_Z 1) = true
  ∨ Js.strict_eq (clampHops (Some n)) (Js.of_Z 2) = true.
Proof.
  intros Hn. destruct n as [| | |q]; [done|by left|by right|].
  unfold clampHops, Js.of_Z; simpl.
  destruct (Qle_bool (inject_Z (Qfloor q)) (inject_Z 1)) eqn:H1; simpl.
  - by left.
  - destruct (Qle_bool (inject_Z (Qfloor q)) (inject_Z 2)) eqn:H2; simpl; [|by right].
    right. apply Qeq_bool_iff.
    assert (¬ (inject_Z (Qfloor q) <= inject_Z 1)%Q) as H1'
      by (rewrite <- Qle_bool_iff; congruence).
    apply Qle_bool_iff in H2. rewrite <- Zle_Qle in H1', H2.
    rewrite inject_Z_injective. lia.
Qed.

Lemma crawlSourceIds_one uid w :
  crawlSourceIds (Js.of_Z 1) uid w = Some [uid].
Proof. reflexivity. Qed.

Lemma crawlSourceIds_two uid w :
  crawlSourceIds (Js.of_Z 2) uid w = Some (uid :: followedSourceIds uid w).
Proof. reflexivity. Qed.

Lemma followedSourceIds_spec uid w sid :
  sid ∈ followedSourceIds uid w ↔
  ∃ src fgraph, src ∈ crawl_sources w ∧ fgraph ∈ crawl_followgraph w
    ∧ src_id src = sid ∧ fg_crawlSourceId fgraph = uid ∧ fg_destUrl fgraph = src_url src.
Proof.
  unfold followedSourceIds. rewrite list_elem_of_In, in_flat_map. split.
  - intros (src & Hsrc & Hin%in_map_iff). destruct Hin as (fg & <- & Hfg%filter_In).
    destruct Hfg as [Hfg [Hurl Hid]%andb_true_iff].
    exists src, fg. rewrite !list_elem_of_In.
    split_and!; [done|done|done|by apply Z.eqb_eq|by apply String.eqb_eq].
  - intros (src & fg & Hsrc%list_elem_of_In & Hfg%list_elem_of_In & <- & <- & Hurl).
    exists src. split; [done|]. apply in_map_iff. exists fg. split; [done|].
    apply filter_In. split; [done|]. rewrite Hurl, String.eqb_refl, Z.eqb_refl. done.
Qed.

(** ** [Array.prototype.sort] and [slice] *)

Lemma sort_Permutation {A} (cmp : A → A → Z) (l : list A) : Js.sort cmp l ≡ₚ l.
Proof. apply merge_sort_Permutation. Qed.

Lemma sort_length {A} (cmp : A → A → Z) (l : list A) :
  length (Js.sort cmp l) = length l.
Proof. apply Permutation_length, sort_Permutation. Qed.

Lemma sort_by_key_sorted {A} (key : A → Z) (l : list A) :
  StronglySorted (λ a b, key b ≤ key a) (Js.sort (λ a b, key b - key a) l).
Proof.
  assert (∀ a b, Js.keeps_order (λ a b, key b - key a) a b ↔ key b ≤ key a) as Hrel
    by (intros a b; unfold Js.keeps_order; lia).
  assert (StronglySorted (Js.keeps_order (λ a b, key b - key a))
            (Js.sort (λ a b, key b - key a) l)) as Hs.
  { apply StronglySorted_merge_sort.
    - intros a b c. rewrite !Hrel. lia.
    - intros a b. rewrite !Hrel. lia. }
  induction Hs as [|a k _ IH Hall]; constructor; [done|].
  eapply Forall_impl; [exact Hall|]. intros b. by rewrite Hrel.
Qed.

Lemma slice0_length {A} (n : Z) (l : list A) :
  0 ≤ n → Z.of_nat (length (Js.slice0 n l)) ≤ n.
Proof.
  intros Hn. unfold Js.slice0. destruct (Z.leb_spec 0 n); [|lia].
  rewrite length_take. lia.
Qed.

Lemma slice0_take {A} (n : Z) (l : list A) :
  0 ≤ n → Js.slice0 n l = take (Z.to_nat n) l.
Proof. intros Hn. unfold Js.slice0. destruct (Z.leb_spec 0 n); [done|lia]. Qed.

(** ** Search: merging the result sets *)

Section SearchFacts.

Context (random_nonce : Z)
        (db_all : string → QueryParams → list SearchRow)
        (getBest : string → option string → SearchResult).

Local Abbreviation listSearchResults' := (listSearchResults random_nonce db_all getBest).

(** C9. The result list of a search is the concatenation of the result sets
    of the requested datasets, sorted by descending [crawledAt] and cut to
    its first [limit] entries, where [limit] is 20 when the caller gives
    none. *)
Theorem search_results_sorted_and_truncated (opts : SearchOpts) (w : World)
    (r : SearchResults) :
  listSearchResults' opts w = Some r →
  0 ≤ default 20 (limit opts) →
  let effective_limit := or_default (limit opts) 20 in
  ∃ params sorted,
    sorted ≡ₚ followgraphResults db_all opts params
                ++ linkPostResults db_all opts params
                ++ publishedSiteResults db_all getBest opts params
    ∧ StronglySorted (λ a b, result_crawledAt b ≤ result_crawledAt a) sorted
    ∧ results r = take (Z.to_nat effective_limit) sorted
    ∧ Z.of_nat (length (results r)) ≤ effective_limit
    ∧ q_limit params = effective_limit
    ∧ (limit opts = None → effective_limit = 20)
    ∧ (∀ n, limit opts = Some n → 0 < n → effective_limit = n).
Proof.
  intros Hr Hlimit. cbv zeta. unfold listSearchResults in Hr.
  destruct (userCrawlSource (user opts) w) as [uid|]; [|done].
  injection Hr as <-. simpl.
  assert (0 ≤ or_default (limit opts) 20) as Hnn.
  { unfold or_default. destruct (limit opts) as [x|]; simpl in *; [|lia].
    destruct (Z.eqb_spec x 0); lia. }
  set (params := mkQueryParams _ _ _ _ _ _ _ _ _).
  set (all := ([] ++ followgraphResults db_all opts params
                ++ linkPostResults db_all opts params)
              ++ publishedSiteResults db_all getBest opts params).
  exists params, (Js.sort (λ a b, result_crawledAt b - result_crawledAt a) all).
  split_and!.
  - rewrite sort_Permutation. subst all. by rewrite app_nil_l, (assoc_L (++)).
  - apply sort_by_key_sorted.
  - by apply slice0_take.
  - by apply slice0_length.
  - reflexivity.
  - by intros ->.
  - intros n -> Hn. unfold or_default. destruct (Z.eqb_spec n 0); [lia|done].
Qed.

End SearchFacts.

Example search_two_newest :
  listSearchResults 42 search_rows no_description two_newest fresh_world
  = Some (mkSearchResults 42
            [mkSearchResult "post" "dat://alice/data/link/2.json" "B" "" 30;
             mkSearchResult "post" "dat://alice/data/link/3.json" "C" "" 20]).
Proof. vm_compute. reflexivity. Qed.

Lemma search_results_witness :
  ∃ params sorted,
    sorted ≡ₚ followgraphResults search_rows two_newest params
                ++ linkPostResults search_rows two_newest params
                ++ publishedSiteResults search_rows no_description two_newest params
    ∧ StronglySorted (λ a b, result_crawledAt b ≤ result_crawledAt a) sorted
    ∧ [mkSearchResult "post" "dat://alice/data/link/2.json" "B" "" 30;
       mkSearchResult "post" "dat://alice/data/link/3.json" "C" "" 20]
      = take (Z.to_nat (or_default (limit two_newest) 20)) sorted
    ∧ Z.of_nat 2 ≤ or_default (limit two_newest) 20
    ∧ q_limit params = or_default (limit two_newest) 20
    ∧ (limit two_newest = None → or_default (limit two_newest) 20 = 20)
    ∧ (∀ n, limit two_newest = Some n → 0 < n → or_default (limit two_newest) 20 = n).
Proof.
  exact (search_results_sorted_and_truncated 42 search_rows no_description
           two_newest fresh_world
           (mkSearchResults 42
              [mkSearchResult "post" "dat://alice/data/link/2.json" "B" "" 30;
               mkSearchResult "post" "dat://alice/data/link/3.json" "C" "" 20])
           search_two_newest ltac:(vm_compute; discriminate)).
Defined.

(** ** Suggestions *)

Section SuggestionFacts.

Context (getBasicType : list string → string)
        (savedArchives : list LibraryArchiveRecord)
        (listBookmarks : list Bookmark)
        (historyDb_search : string → list HistoryEntry).

(** C10. The suggestions carry [bookmarks] and [history] exactly when the
    query is a non-empty string, and each of the two lists then has at most
    12 entries. *)
Theorem suggestions_bookmarks_and_history (query : option string) (filterPins : bool) :
  let suggestions :=
    listSuggestions getBasicType savedArchives listBookmarks historyDb_search
      query filterPins in
  (is_Some (bookmarks suggestions) ↔ ∃ q, query = Some q ∧ q ≠ "")
  ∧ (is_Some (history suggestions) ↔ ∃ q, query = Some q ∧ q ≠ "")
  ∧ (∀ l, bookmarks suggestions = Some l → (length l ≤ 12)%nat)
  ∧ (∀ l, history suggestions = Some l → (length l ≤ 12)%nat).
Proof.
  cbv zeta. unfold listSuggestions.
  assert (∀ {A} (l : list A), (length (Js.slice0 12 l) ≤ 12)%nat) as Hslice.
  { intros A l. pose proof (slice0_length 12 l). lia. }
  destruct query as [q|]; simpl.
  - destruct (String.eqb_spec q "") as [->|Hq]; simpl.
    + split_and!; try done.
      all: split; [by intros [? [=]]|by intros (q & [= <-] & ?)].
    + split_and!.
      * split; [by exists q|by eexists].
      * split; [by exists q|by eexists].
      * intros l [= <-]. rewrite length_map. apply Hslice.
      * intros l [= <-]. rewrite sort_length. apply Hslice.
  - split_and!; try done.
    all: split; [by intros [? [=]]|by intros (q & [=] & ?)].
Qed.

End SuggestionFacts.

Example suggestions_for_query :
  let s := listSuggestions (λ _, "other") []
             [mkBookmark "dat://bob/" "Bob" true; mkBookmark "dat://bobby/" "Bobby" false]
             (λ q, [mkHistory "dat://bob/long/path" "Bob"; mkHistory "dat://bob/" "Bob"])
             (Some "bob") true in
  bookmarks s = Some [mkBookmarkSuggestion "Bobby" "dat://bobby/"]
  ∧ history s = Some [mkHistory "dat://bob/" "Bob"; mkHistory "dat://bob/long/path" "Bob"]
  ∧ apps s = [].
Proof. cbv zeta. split_and!; vm_compute; reflexivity. Qed.

(** * Further properties of the crawler *)

(** ** [doCheckpoint] replaces one row *)

Lemma filter_negb_filter {A} (p : A → bool) (l : list A) :
  List.filter p (List.filter (λ x, negb (p x)) l) = [].
Proof.
  induction l as [|x l IH]; simpl; [done|].
  destruct (p x) eqn:Hp; simpl; [done|]. by rewrite Hp.
Qed.

Lemma filter_idem {A} (p : A → bool) (l : list A) :
  List.filter p (List.filter p l) = List.filter p l.
Proof.
  induction l as [|x l IH]; simpl; [done|].
  destruct (p x) eqn:Hp; simpl; [|done]. by rewrite Hp, IH.
Qed.

Lemma filter_filter_weaker {A} (p q : A → bool) (l : list A) :
  (∀ x, p x = true → q x = true) →
  List.filter p (List.filter q l) = List.filter p l.
Proof.
  intros Hpq. induction l as [|x l IH]; simpl; [done|].
  destruct (q x) eqn:Hq; simpl; [by rewrite IH|].
  destruct (p x) eqn:Hp; [|done]. rewrite (Hpq x Hp) in Hq. done.
Qed.

Lemma filter_map_fixed {A} (p : A → bool) (f : A → A) (l : list A) :
  (∀ x, p (f x) = p x) → (∀ x, p x = true → f x = x) →
  List.filter p (List.map f l) = List.filter p l.
Proof.
  intros Hp Hf. induction l as [|x l IH]; simpl; [done|].
  rewrite Hp, IH. destruct (p x) eqn:Hx; [|done]. by rewrite Hf.
Qed.

Lemma doCheckpoint_replaces_the_row_aux ds ep (src : CrawlSourceRecord) v (w : World) :
  let w' := doCheckpoint ds ep src v w in
  meta_of_others ds (src_id src) w' = meta_of_others ds (src_id src) w
  ∧ crawl_posts w' = crawl_posts w
  ∧ crawl_sources w' = crawl_sources w
  ∧ crawl_followgraph w' = crawl_followgraph w.
Proof.
  cbv zeta. unfold meta_of_others, doCheckpoint; simpl.
  rewrite !List.filter_app, filter_idem; simpl.
  rewrite (meta_key_refl ds ep src); simpl. by rewrite app_nil_r.
Qed.

(** X1. After [doCheckpoint] the table [crawl_sources_meta] holds exactly
    one row for the dataset and the source, however many it held before:
    the row with the given epoch and version and the time of the call. The
    rows of all other pairs are kept, in their order, and no other table
    changes. *)
Theorem doCheckpoint_replaces_the_row crawlDataset crawlDatasetVersion
    (crawlSource : CrawlSourceRecord) crawlSourceVersion (w : World) :
  let w' := doCheckpoint crawlDataset crawlDatasetVersion crawlSource crawlSourceVersion w in
  List.filter (meta_key crawlDataset (src_id crawlSource)) (crawl_sources_meta w')
  = [mkMeta crawlDataset crawlDatasetVersion (src_id crawlSource) crawlSourceVersion
            (clock w)]
  ∧ meta_of_others crawlDataset (src_id crawlSource) w'
    = meta_of_others crawlDataset (src_id crawlSource) w
  ∧ crawl_posts w' = crawl_posts w
  ∧ crawl_sources w' = crawl_sources w
  ∧ crawl_followgraph w' = crawl_followgraph w.
Proof.
  cbv zeta. unfold meta_of_others, doCheckpoint; simpl.
  rewrite !List.filter_app, filter_negb_filter, filter_idem; simpl.
  rewrite (meta_key_refl crawlDataset crawlDatasetVersion crawlSource); simpl.
  by rewrite app_nil_r.
Qed.

(** ** A crawl touches the rows of its source only *)

Section Isolation.

Variables (ds : string) (sid : Z).

Lemma only_touches_refl w : only_touches ds sid w w.
Proof. by repeat split. Qed.

Lemma only_touches_trans w1 w2 w3 :
  only_touches ds sid w1 w2 → only_touches ds sid w2 w3 → only_touches ds sid w1 w3.
Proof.
  intros (?&?&?&?&?) (?&?&?&?&?). repeat split; congruence.
Qed.

Lemma only_touches_emit e w : only_touches ds sid w (emit e w).
Proof. by repeat split. Qed.

Lemma only_touches_stmt stmt w :
  stmt_of_source sid stmt → only_touches ds sid w (db_run stmt w).
Proof.
  intros Hstmt. unfold only_touches, posts_of_others, meta_of_others.
  destruct stmt as [| |i|i path|crawledAt body created updated i path|row];
    simpl in *; try done; subst; (split; [|done]).
  - apply filter_idem.
  - apply filter_filter_weaker. intros r Hr. unfold post_key.
    by rewrite (negb_true_iff _) in Hr; rewrite Hr.
  - apply filter_map_fixed; intros r; unfold post_key.
    + by destruct (_ && _).
    + intros Hr. by rewrite (proj1 (negb_true_iff _) Hr).
  - rewrite List.filter_app; simpl. rewrite Z.eqb_refl; simpl. by rewrite app_nil_r.
Qed.

Lemma only_touches_checkpoint ep (src : CrawlSourceRecord) v w :
  sid = src_id src → only_touches ds sid w (doCheckpoint ds ep src v w).
Proof.
  intros ->.
  destruct (doCheckpoint_replaces_the_row_aux ds ep src v w) as (Hm & Hp & Hs & Hf).
  repeat split; done.
Qed.

End Isolation.

Section IsolationOfCrawl.

Context (new_URL : string → option URLRecord)
        (JSON_parse_valid : string → option Post)
        (Number_Date : option string → Js.number).

Local Abbreviation crawlPost' := (crawlPost new_URL JSON_parse_valid Number_Date).
Local Abbreviation crawlPosts' := (crawlPosts new_URL JSON_parse_valid Number_Date).
Local Abbreviation crawlSite_handler' :=
  (crawlSite_handler new_URL JSON_parse_valid Number_Date).
Local Abbreviation crawlSite' := (crawlSite new_URL JSON_parse_valid Number_Date).
Local Abbreviation touches_posts src := (only_touches "crawl_posts" (src_id src)).

Lemma crawlPost_only_touches archive src n e p w :
  touches_posts src w (iteration_world (crawlPost' archive src n e p w)).
Proof.
  assert (∀ stmt ev, stmt_of_source (src_id src) stmt →
            touches_posts src w
              (emitProgressEvent (archive_url archive) "crawl_posts" (p + 1) n
                 (doCheckpoint "crawl_posts" TABLE_VERSION src (version e)
                    (emit ev (db_run stmt w))))) as Happlied.
  { intros stmt ev Hstmt.
    eapply only_touches_trans; [by apply only_touches_stmt|].
    eapply only_touches_trans; [apply only_touches_emit|].
    eapply only_touches_trans; [by apply only_touches_checkpoint|].
    apply only_touches_emit. }
  pose proof (only_touches_refl "crawl_posts" (src_id src) w) as Hsame.
  unfold crawlPost.
  destruct (type e); simpl; try (by apply Happlied).
  all: destruct (archive_readFile archive (name e)) as [postString|]; simpl; [|done].
  all: destruct (JSON_parse_valid postString) as [post|]; simpl; [|done].
  all: destruct (get new_URL (archive_url archive) (name e) w) as [[row|]|]; simpl;
    [| |done].
  all: by apply Happlied.
Qed.

Lemma crawlPosts_only_touches archive src n l p w :
  touches_posts src w (world_of (crawlPosts' archive src n l p w)).
Proof.
  revert p w. induction l as [|e l IH]; intros p w; simpl.
  - apply only_touches_refl.
  - pose proof (crawlPost_only_touches archive src n e p w) as H1.
    destruct (crawlPost' archive src n e p w) as [p' w'|w'|w']; simpl in *; [|done..].
    eapply only_touches_trans; [exact H1|apply IH].
Qed.

Lemma crawlSite_handler_only_touches archive src changes resetRequired w :
  touches_posts src w (world_of (crawlSite_handler' archive src changes resetRequired w)).
Proof.
  unfold crawlSite_handler.
  eapply only_touches_trans; [|eapply only_touches_trans;
                                 [apply only_touches_emit|apply crawlPosts_only_touches]].
  destruct resetRequired; [|apply only_touches_refl].
  eapply only_touches_trans; [|by apply only_touches_checkpoint].
  by apply only_touches_stmt.
Qed.

(** X2. A crawl of the posts of one source changes nothing that belongs to
    another: the rows of other sources in [crawl_posts], the checkpoints of
    other (dataset, source) pairs, [crawl_sources] and [crawl_followgraph]
    are after the run what they were before it, whether the run resolves or
    rejects. *)
Theorem crawlSite_touches_its_source_only archive crawlSource w :
  let w' := world_of (crawlSite' archive crawlSource w) in
  posts_of_others (src_id crawlSource) w' = posts_of_others (src_id crawlSource) w
  ∧ meta_of_others "crawl_posts" (src_id crawlSource) w'
    = meta_of_others "crawl_posts" (src_id crawlSource) w
  ∧ crawl_sources w' = crawl_sources w
  ∧ crawl_followgraph w' = crawl_followgraph w.
Proof.
  cbv zeta.
  assert (touches_posts crawlSource w (world_of (crawlSite' archive crawlSource w))) as H;
    [|by destruct H as (?&?&?&?&?)].
  unfold crawlSite. rewrite doCrawl_state.
  assert (∀ r v, touches_posts crawlSource w
                   (world_of (crawl_from_state archive crawlSource "crawl_posts"
                                TABLE_VERSION (crawlSite_handler' archive crawlSource)
                                r v w))) as Hfrom.
  { intros r v. unfold crawl_from_state.
    destruct (archive_history archive _ _) as [changes|]; [|apply only_touches_refl].
    set (w1 := emit _ w).
    pose proof (crawlSite_handler_only_touches archive crawlSource changes r w1) as Hh.
    destruct (crawlSite_handler' archive crawlSource changes r w1) as [w2|w2];
      simpl in *.
    - apply (only_touches_trans _ _ w w1); [apply only_touches_emit|].
      eapply only_touches_trans; [exact Hh|].
      eapply only_touches_trans; [by apply only_touches_checkpoint|].
      apply only_touches_emit.
    - apply (only_touches_trans _ _ w w1); [apply only_touches_emit|exact Hh]. }
  destruct (db_get_meta _ _ _) as [st|]; [destruct (_ =? _)|]; apply Hfrom.
Qed.

End IsolationOfCrawl.

(** ** Runs that have nothing to do, and runs that cannot start *)

Section Reruns.

Context (new_URL : string → option URLRecord)
        (JSON_parse_valid : string → option Post)
        (Number_Date : option string → Js.number).

Local Abbreviation crawlSite' := (crawlSite new_URL JSON_parse_valid Number_Date).

(** X3. Crawling again after a run that resolved, on the archive as it was
    (the change log of the empty window is empty), resolves too and is a
    no-op for the index: [crawl_posts] and the stored checkpoint stay as
    they are; the run only emits its events and rewrites the checkpoint
    row with the same version. *)
Theorem crawlSite_again_is_a_noop archive crawlSource w w1 :
  crawlSite' archive crawlSource w = Resolved w1 →
  archive_history archive (default 0 (archive_info archive) + 1)
    (default 0 (archive_info archive) + 1) = Some [] →
  ∃ w2, crawlSite' archive crawlSource w1 = Resolved w2
    ∧ crawl_posts w2 = crawl_posts w1
    ∧ checkpoint "crawl_posts" (src_id crawlSource) w2
      = checkpoint "crawl_posts" (src_id crawlSource) w1
    ∧ log w2
      = log w1
        ++ [Emit (CrawlDatasetStart (archive_url archive) "crawl_posts"
                    (default 0 (archive_info archive) + 1)
                    (default 0 (archive_info archive) + 1));
            Emit (CrawlDatasetProgress (archive_url archive) "crawl_posts" 0 0);
            Run (DeleteMeta "crawl_posts" (src_id crawlSource));
            Run (InsertMeta (mkMeta "crawl_posts" TABLE_VERSION (src_id crawlSource)
                               (default 0 (archive_info archive)) (clock w1)));
            Emit (CrawlDatasetFinish (archive_url archive) "crawl_posts"
                    (default 0 (archive_info archive) + 1)
                    (default 0 (archive_info archive) + 1))].
Proof.
  intros Hrun Hhist.
  pose proof (crawlSite_resolved_checkpoint _ _ _ _ _ _ _ Hrun) as Hcp.
  unfold crawlSite at 1. rewrite doCrawl_state.
  unfold checkpoint in Hcp.
  destruct (db_get_meta (src_id crawlSource) "crawl_posts" w1) as [st|] eqn:Hst;
    [|done].
  simpl in Hcp. injection Hcp as Hep Hv. rewrite Hep, Z.eqb_refl, Hv.
  unfold crawl_from_state. rewrite Hhist. simpl.
  eexists. split; [reflexivity|]. split_and!.
  - done.
  - unfold checkpoint.
    change (db_get_meta _ _ (emit ?e ?x)) with
      (db_get_meta (src_id crawlSource) "crawl_posts" x).
    rewrite doCheckpoint_get, Hst. simpl. by rewrite Hep, Hv.
  - simpl. by rewrite <- !(assoc_L (++)).
Qed.

End Reruns.

Lemma crawlSite_again_witness :
  ∃ w2,
    crawlSite node_URL brace_posts date_stub five_versions_archive alice
      (world_of (crawlSite node_URL brace_posts date_stub five_versions_archive
                   alice fresh_world))
    = Resolved w2
    ∧ crawl_posts w2
      = crawl_posts (world_of (crawlSite node_URL brace_posts date_stub
                                 five_versions_archive alice fresh_world)).
Proof.
  destruct (crawlSite_again_is_a_noop node_URL brace_posts date_stub
              five_versions_archive alice fresh_world
              (world_of (crawlSite node_URL brace_posts date_stub
                           five_versions_archive alice fresh_world))
              eq_refl eq_refl) as (w2 & Hrun & Hposts & _).
  exists w2. by split.
Defined.

(** ** Crawling a post and looking it up *)

Lemma upsert_row_has_key row t :
  existsb (post_key (post_crawlSourceId row) (post_pathname row)) (upsert_row row t) = true.
Proof.
  assert (post_key (post_crawlSourceId row) (post_pathname row) row = true) as Hrow
    by (unfold post_key; by rewrite Z.eqb_refl, String.eqb_refl).
  unfold upsert_row; simpl.
  destruct (existsb _ t) eqn:Hex.
  - apply existsb_exists in Hex as (r & Hr & Hk).
    apply existsb_exists. eexists. split; [apply in_map, Hr|]. simpl. by rewrite Hk.
  - rewrite existsb_app; simpl. by rewrite Hrow, orb_true_r.
Qed.

Lemma find_upsert_row row t :
  List.find (post_key (post_crawlSourceId row) (post_pathname row)) (upsert_row row t)
  = Some row.
Proof.
  pose proof (upsert_row_has_key row t) as Hex. rewrite find_existsb in Hex.
  destruct (List.find _ _) as [r|] eqn:Hfind; [|done].
  apply find_some in Hfind as [Hin Hk].
  pose proof (upsert_row_keyed row t) as Hall. rewrite Forall_forall in Hall.
  f_equal. apply Hall; [by apply list_elem_of_In|done].
Qed.

Section Lookup.

Context (new_URL : string → option URLRecord)
        (JSON_parse_valid : string → option Post)
        (Number_Date : option string → Js.number).

Local Abbreviation crawlPost' := (crawlPost new_URL JSON_parse_valid Number_Date).

(** X5. A post that was just crawled is found by [get]: after an
    add/change entry has been applied, [get] with the archive's url and
    the name of the entry returns the row with the body and the dates of
    the file and the time of the crawl (when the source is registered
    under the origin of the archive's url). *)
Theorem crawled_post_is_found_by_get archive crawlSource n e p w u postString post :
  archive_url archive ≠ "" → name e ≠ "" →
  new_URL (archive_url archive) = Some u →
  source_registered (url_origin u) crawlSource w →
  type e ≠ del →
  archive_readFile archive (name e) = Some postString →
  JSON_parse_valid postString = Some post →
  get new_URL (archive_url archive) (name e)
    (iteration_world (crawlPost' archive crawlSource n e p w))
  = Some (Some (stored_row Number_Date crawlSource e post (clock w))).
Proof.
  intros Hurl Hname Hu Hreg Htype Hread Hparse.
  destruct (crawlPost_upsert new_URL JSON_parse_valid Number_Date archive crawlSource
              n e p w u postString post) as (w' & -> & Hposts & Hsrc); [done..|].
  simpl. rewrite (get_by_key new_URL archive crawlSource (name e) u); [|done..|].
  - rewrite Hposts. f_equal.
    apply (find_upsert_row (stored_row Number_Date crawlSource e post (clock w))).
  - unfold source_registered in *. by rewrite Hsrc.
Qed.

(** X6. After a [del] entry has been applied no row with the key of the
    entry is left, the rows with other keys are kept in their order and
    the version of the entry is checkpointed. [get] with the archive's url
    and the name of the entry then finds nothing, when the url is not
    empty and can be parsed, the name is not empty, and every crawl source
    registered under the origin of the url has the id of the source that
    is crawled. *)
Theorem deleted_post_is_gone archive crawlSource n e p w :
  type e = del →
  ∃ w', crawlPost' archive crawlSource n e p w = Continue (p + 1) w'
    ∧ List.filter (post_key (src_id crawlSource) (name e)) (crawl_posts w') = []
    ∧ List.filter (λ r, negb (post_key (src_id crawlSource) (name e) r)) (crawl_posts w')
      = List.filter (λ r, negb (post_key (src_id crawlSource) (name e) r)) (crawl_posts w)
    ∧ checkpoint "crawl_posts" (src_id crawlSource) w' = Some (TABLE_VERSION, version e)
    ∧ ∀ u, archive_url archive ≠ "" → name e ≠ "" →
           new_URL (archive_url archive) = Some u →
           (∀ src, src ∈ crawl_sources w → src_url src = url_origin u →
                   src_id src = src_id crawlSource) →
           get new_URL (archive_url archive) (name e) w' = Some None.
Proof.
  intros Htype.
  unfold crawlPost. rewrite Htype. eexists. split; [reflexivity|].
  assert (List.filter (post_key (src_id crawlSource) (name e))
            (List.filter (λ r, negb (post_key (src_id crawlSource) (name e) r))
               (crawl_posts w)) = []) as Hnone by apply filter_negb_filter.
  split_and!.
  - exact Hnone.
  - simpl. apply filter_idem.
  - unfold checkpoint.
    change (db_get_meta _ _ (emitProgressEvent _ _ _ _ ?x))
      with (db_get_meta (src_id crawlSource) "crawl_posts" x).
    by rewrite doCheckpoint_get.
  - intros u Hurl Hname Hu Honly. unfold get.
    destruct (String.eqb_spec (archive_url archive) ""); [done|]. rewrite Hu.
    destruct (String.eqb_spec (name e) ""); [done|]. f_equal. simpl.
    destruct (List.find _ _) as [r|] eqn:Hfind; [|done].
    apply find_some in Hfind as [Hin [Hpath Hex]%andb_true_iff].
    apply existsb_exists in Hex as (src & Hsrc%list_elem_of_In & [Hid Hsurl]%andb_true_iff).
    apply String.eqb_eq in Hpath, Hsurl. apply Z.eqb_eq in Hid.
    assert (post_key (src_id crawlSource) (name e) r = true) as Hk.
    { unfold post_key. rewrite <- Hid, (Honly src Hsrc Hsurl), Z.eqb_refl, Hpath.
      by rewrite String.eqb_refl. }
    assert (In r (List.filter (post_key (src_id crawlSource) (name e))
                    (List.filter (λ r, negb (post_key (src_id crawlSource) (name e) r))
                       (crawl_posts w)))) as Hr by (apply filter_In; auto).
    rewrite Hnone in Hr. done.
Qed.

End Lookup.

Lemma carol_registered : source_registered "https://carol.example" carol carol_world.
Proof.
  intros sid.
  change (existsb _ _) with ((7 =? sid) && false || ((9 =? sid) && true || false)).
  rewrite andb_false_r, andb_true_r, orb_false_r, orb_false_l. apply Z.eqb_sym.
Qed.

Lemma crawled_post_witness :
  get node_URL "https://carol.example" "/data/feed/a.json"
    (iteration_world (crawlPost node_URL brace_posts date_stub carol_archive
                        carol 2 (mkChange "/data/feed/a.json" add 1) 0 carol_world))
  = Some (Some (mkPostRow 9 "/data/feed/a.json" 1000 "{a}" (Js.of_Z 1546300800000)
                          (Js.of_Z 0))).
Proof.
  exact (crawled_post_is_found_by_get node_URL brace_posts date_stub
           carol_archive carol 2 (mkChange "/data/feed/a.json" add 1) 0
           carol_world (mkURL "https://carol.example" "/") "{a}"
           (mkPost "{a}" (Some "2019-01-01") None)
           ltac:(discriminate) ltac:(discriminate) eq_refl carol_registered
           ltac:(discriminate) eq_refl eq_refl).
Defined.

Lemma deleted_post_witness :
  ∃ w', crawlPost node_URL brace_posts date_stub carol_archive carol 2
          (mkChange "/data/feed/old.json" del 2) 1 carol_world
        = Continue (1 + 1) w'
    ∧ crawl_posts w'
      = [mkPostRow 7 "/data/feed/old.json" 800 "{alice}" (Js.of_Z 1) (Js.of_Z 0)]
    ∧ get node_URL "https://carol.example" "/data/feed/old.json" w' = Some None.
Proof.
  destruct (deleted_post_is_gone node_URL brace_posts date_stub carol_archive
              carol 2 (mkChange "/data/feed/old.json" del 2) 1 carol_world eq_refl)
    as (w' & Hrun & _ & _ & _ & Hget).
  exists w'. split; [exact Hrun|]. split.
  - injection Hrun as <-. reflexivity.
  - apply (Hget (mkURL "https://carol.example" "/"));
      [discriminate|discriminate|reflexivity|].
    intros src Hsrc Hurl.
    apply elem_of_cons in Hsrc as [->|Hsrc]; [discriminate|].
    apply elem_of_cons in Hsrc as [->|Hsrc]; [reflexivity|].
    by apply elem_of_nil in Hsrc.
Defined.

(** ** The events of a run *)

Section Events.

Context (new_URL : string → option URLRecord)
        (JSON_parse_valid : string → option Post)
        (Number_Date : option string → Js.number).

Local Abbreviation crawlPost' := (crawlPost new_URL JSON_parse_valid Number_Date).
Local Abbreviation crawlPosts' := (crawlPosts new_URL JSON_parse_valid Number_Date).
Local Abbreviation crawlSite_handler' :=
  (crawlSite_handler new_URL JSON_parse_valid Number_Date).
Local Abbreviation crawlSite' := (crawlSite new_URL JSON_parse_valid Number_Date).

(** One iteration adds nothing to the log, or the five effects of an
    applied entry. *)
Lemma crawlPost_log archive src n e p w :
  (log (iteration_world (crawlPost' archive src n e p w)) = log w
   ∧ ∀ p' w', crawlPost' archive src n e p w = Continue p' w' → p' = p)
  ∨ ∃ stmt ev w',
      crawlPost' archive src n e p w = Continue (p + 1) w'
      ∧ stmt_of_source (src_id src) stmt ∧ post_event ev
      ∧ log w'
        = log w
          ++ [Run stmt; Emit ev;
              Run (DeleteMeta "crawl_posts" (src_id src));
              Run (InsertMeta (mkMeta "crawl_posts" TABLE_VERSION (src_id src)
                                 (version e) (clock w)));
              Emit (CrawlDatasetProgress (archive_url archive) "crawl_posts" (p + 1) n)].
Proof.
  assert (∀ stmt ev, stmt_of_source (src_id src) stmt → post_event ev →
            ∃ stmt0 ev0 w',
              Continue (p + 1)
                (emitProgressEvent (archive_url archive) "crawl_posts" (p + 1) n
                   (doCheckpoint "crawl_posts" TABLE_VERSION src (version e)
                      (emit ev (db_run stmt w))))
              = Continue (p + 1) w'
              ∧ stmt_of_source (src_id src) stmt0 ∧ post_event ev0
              ∧ log w'
                = log w
                  ++ [Run stmt0; Emit ev0;
                      Run (DeleteMeta "crawl_posts" (src_id src));
                      Run (InsertMeta (mkMeta "crawl_posts" TABLE_VERSION (src_id src)
                                         (version e) (clock w)));
                      Emit (CrawlDatasetProgress (archive_url archive) "crawl_posts"
                              (p + 1) n)]) as Happlied.
  { intros stmt ev Hstmt Hev. exists stmt, ev. eexists. split; [reflexivity|].
    split_and!; [done..|].
    destruct stmt; simpl in *; try done; by rewrite <- !(assoc_L (++)). }
  unfold crawlPost.
  destruct (type e); simpl; try (right; by apply Happlied).
  all: destruct (archive_readFile archive (name e)) as [postString|]; simpl;
    [|left; by split].
  all: destruct (JSON_parse_valid postString) as [post|]; simpl;
    [|left; split; [done|by intros ? ? [= <- _]]].
  all: destruct (get new_URL (archive_url archive) (name e) w) as [[row|]|]; simpl;
    [| |left; by split].
  all: right; by apply Happlied.
Qed.

Lemma crawlPosts_log archive src n l p w :
  ∃ new k,
    log (world_of (crawlPosts' archive src n l p w)) = log w ++ new
    ∧ 0 ≤ k ≤ Z.of_nat (length l)
    ∧ progress_events new = (λ i, (i, n)) <$> seqZ (p + 1) k
    ∧ lifecycle_events new = [].
Proof.
  revert p w. induction l as [|e l IH]; intros p w.
  - exists [], 0. simpl. by rewrite app_nil_r.
  - cbn [crawlPosts].
    destruct (crawlPost_log archive src n e p w)
      as [[Hlog Hp]|(stmt & ev & w' & Hrun & Hstmt & Hev & Hlog)].
    + destruct (crawlPost' archive src n e p w) as [p' w'|w'|w'] eqn:Hit; simpl in Hlog.
      * rewrite (Hp p' w' eq_refl).
        destruct (IH p w') as (new & k & Hnew & Hk & Hpr & Hlc).
        exists new, k. rewrite Hnew, Hlog.
        split_and!; try done; rewrite ?length_cons; lia.
      * exists [], 0. simpl. rewrite app_nil_r. split_and!; try done; lia.
      * exists [], 0. simpl. rewrite app_nil_r. split_and!; try done; lia.
    + rewrite Hrun.
      destruct (IH (p + 1) w') as (new & k & Hnew & Hk & Hpr & Hlc).
      eexists _, (1 + k). rewrite Hnew, Hlog, <- (assoc_L (++)).
      split; [reflexivity|]. split; [rewrite length_cons; lia|]. split.
      * unfold progress_events in *. rewrite omap_app, Hpr.
        rewrite (seqZ_cons (p + 1) (1 + k)) by lia.
        replace (Z.pred (1 + k)) with k by lia.
        replace (Z.succ (p + 1)) with (p + 1 + 1) by lia.
        by destruct stmt, ev.
      * unfold lifecycle_events in *. rewrite omap_app, Hlc.
        by destruct stmt, ev.
Qed.

Lemma progress_counts_up_aux archive src changes (resetRequired : bool) w :
  ∃ new,
    log (world_of (crawlSite_handler' archive src changes resetRequired w)) = log w ++ new
    ∧ lifecycle_events new = [].
Proof.
  unfold crawlSite_handler.
  set (changedPosts := getMatchingChangesInOrder changes JSON_PATH_REGEX).
  set (w1 := if resetRequired then _ else w).
  assert (∃ pre, log w1 = log w ++ pre ∧ lifecycle_events pre = []) as (pre & Hpre & Hpl).
  { subst w1. destruct resetRequired.
    - eexists. split; [simpl; rewrite <- !(assoc_L (++)); reflexivity|done].
    - exists []. by rewrite app_nil_r. }
  set (w2 := emitProgressEvent _ _ _ _ w1).
  destruct (crawlPosts_log archive src (Z.of_nat (length changedPosts))
              changedPosts 0 w2) as (new & k & Hnew & _ & _ & Hlc).
  eexists. rewrite Hnew. subst w2. simpl. rewrite Hpre, <- !(assoc_L (++)).
  split; [reflexivity|].
  unfold lifecycle_events in *. by rewrite !omap_app, Hpl, Hlc.
Qed.

(** X7. The progress events of the posts handler count up from 0, one by
    one, and never pass the number of resolved entries; each of them
    carries that number as [numUpdates]. The handler emits no start or
    finish event. *)
Theorem progress_counts_up_to_the_number_of_updates archive crawlSource changes
    (resetRequired : bool) w :
  let numUpdates :=
    Z.of_nat (length (getMatchingChangesInOrder changes JSON_PATH_REGEX)) in
  ∃ new applied,
    log (world_of (crawlSite_handler' archive crawlSource changes resetRequired w))
    = log w ++ new
    ∧ 0 ≤ applied ≤ numUpdates
    ∧ progress_events new = (λ i, (i, numUpdates)) <$> seqZ 0 (applied + 1)
    ∧ lifecycle_events new = [].
Proof.
  cbv zeta. unfold crawlSite_handler.
  set (changedPosts := getMatchingChangesInOrder changes JSON_PATH_REGEX).
  set (w1 := if resetRequired then _ else w).
  assert (∃ pre, log w1 = log w ++ pre ∧ progress_events pre = []
                 ∧ lifecycle_events pre = []) as (pre & Hpre & Hpp & Hpl).
  { subst w1. destruct resetRequired.
    - eexists. split; [simpl; rewrite <- !(assoc_L (++)); reflexivity|done].
    - exists []. by rewrite app_nil_r. }
  set (w2 := emitProgressEvent _ _ _ _ w1).
  destruct (crawlPosts_log archive crawlSource (Z.of_nat (length changedPosts))
              changedPosts 0 w2) as (new & k & Hnew & Hk & Hpr & Hlc).
  eexists _, k. rewrite Hnew. subst w2. simpl. rewrite Hpre, <- !(assoc_L (++)).
  split; [reflexivity|]. split; [done|]. split.
  - unfold progress_events in *. rewrite !omap_app, Hpp, Hpr. simpl.
    rewrite (seqZ_cons 0 (k + 1)) by lia.
    replace (Z.pred (k + 1)) with k by lia. done.
  - unfold lifecycle_events in *. rewrite !omap_app, Hpl, Hlc. done.
Qed.

(** X8. A run of the posts crawler that resolves has emitted exactly one
    start event, first of all its effects, and one finish event, last of
    them, both with the same window; a run that rejects has emitted no
    finish event. *)
Theorem start_and_finish_bracket_a_run archive crawlSource w :
  ∃ new, log (world_of (crawlSite' archive crawlSource w)) = log w ++ new
    ∧ match crawlSite' archive crawlSource w with
      | Resolved _ =>
          ∃ start end_ mid,
            new = Emit (CrawlDatasetStart (archive_url archive) "crawl_posts" start end_)
                  :: mid
                  ++ [Emit (CrawlDatasetFinish (archive_url archive) "crawl_posts"
                              start end_)]
            ∧ lifecycle_events mid = []
      | Rejected _ =>
          new = []
          ∨ ∃ start end_ mid,
              new = Emit (CrawlDatasetStart (archive_url archive) "crawl_posts"
                            start end_) :: mid
              ∧ lifecycle_events mid = []
      end.
Proof.
  unfold crawlSite. rewrite doCrawl_state.
  assert (∀ r v,
            let o := crawl_from_state archive crawlSource "crawl_posts" TABLE_VERSION
                       (crawlSite_handler' archive crawlSource) r v w in
            ∃ new, log (world_of o) = log w ++ new
              ∧ match o with
                | Resolved _ =>
                    ∃ start end_ mid,
                      new = Emit (CrawlDatasetStart (archive_url archive) "crawl_posts"
                                    start end_)
                            :: mid
                            ++ [Emit (CrawlDatasetFinish (archive_url archive)
                                        "crawl_posts" start end_)]
                      ∧ lifecycle_events mid = []
                | Rejected _ =>
                    new = []
                    ∨ ∃ start end_ mid,
                        new = Emit (CrawlDatasetStart (archive_url archive)
                                      "crawl_posts" start end_) :: mid
                        ∧ lifecycle_events mid = []
                end) as Hfrom.
  { intros r v. cbv zeta. unfold crawl_from_state.
    destruct (archive_history archive _ _) as [changes|].
    - set (w1 := emit _ w).
      destruct (progress_counts_up_aux archive crawlSource changes r w1)
        as (mid & Hmid & Hlc).
      destruct (crawlSite_handler' archive crawlSource changes r w1) as [w2|w2];
        simpl in *.
      + eexists. split.
        * rewrite Hmid. simpl. rewrite <- !(assoc_L (++)). reflexivity.
        * exists (v + 1), (default 0 (archive_info archive) + 1),
            (mid ++ [Run (DeleteMeta "crawl_posts" (src_id crawlSource));
                     Run (InsertMeta (mkMeta "crawl_posts" TABLE_VERSION
                                        (src_id crawlSource)
                                        (default 0 (archive_info archive)) (clock w2)))]).
          split; [simpl; by rewrite <- !(assoc_L (++))|].
          unfold lifecycle_events in *. by rewrite omap_app, Hlc.
      + eexists. split.
        * rewrite Hmid. simpl. rewrite <- !(assoc_L (++)). reflexivity.
        * right. by exists (v + 1), (default 0 (archive_info archive) + 1), mid.
    - exists []. simpl. rewrite app_nil_r. split; [done|by left]. }
  destruct (db_get_meta _ _ _) as [st|]; [destruct (_ =? _)|]; apply Hfrom.
Qed.

End Events.

(** ** Generated file names *)

Section TimeFilenameFacts.

Context (toISOString : Z → string).

(** X9. Two calls of [generateTimeFilename] in a row never produce the
    same date, whatever the clock reads at either call and whatever was
    generated before; the two names differ when [toISOString] tells dates
    apart. *)
Theorem consecutive_time_filenames_differ (now1 now2 : Z) (last : option Z) :
  let first := generateTimeFilename toISOString now1 last in
  let second := generateTimeFilename toISOString now2 (snd first) in
  ∃ d1 d2,
    fst first = toISOString d1 ∧ fst second = toISOString d2 ∧ d1 ≠ d2
    ∧ snd second = Some d2
    ∧ ((∀ a b, toISOString a = toISOString b → a = b) → fst first ≠ fst second).
Proof.
  cbv zeta. unfold generateTimeFilename; simpl.
  eexists _, _. split; [reflexivity|]. split; [reflexivity|].
  assert ((if bool_decide (Some now1 = last) then now1 + 1 else now1)
          ≠ (if bool_decide
                  (Some now2
                   = Some (if bool_decide (Some now1 = last) then now1 + 1 else now1))
             then now2 + 1 else now2)) as Hne.
  { generalize (if bool_decide (Some now1 = last) then now1 + 1 else now1).
    intros d1. case_bool_decide as H2.
    - assert (now2 = d1) by congruence. lia.
    - intros <-. done. }
  split; [done|]. split; [done|]. intros Hinj Heq. by apply Hne, Hinj.
Qed.

(** X10. The guard only looks one call back: of three calls at the same
    clock reading the third returns the name of the first. *)
Theorem third_time_filename_repeats_the_first (now : Z) (last : option Z) :
  let first := generateTimeFilename toISOString now last in
  let second := generateTimeFilename toISOString now (snd first) in
  let third := generateTimeFilename toISOString now (snd second) in
  fst third = fst first ∧ fst second = toISOString
                                         (if bool_decide (Some now = last)
                                          then now else now + 1).
Proof.
  cbv zeta. unfold generateTimeFilename; simpl.
  destruct (decide (Some now = last)) as [H1|H1].
  - rewrite (bool_decide_true (Some now = last)) by done.
    rewrite (bool_decide_false (Some now = Some (now + 1))) by (intros [=]; lia).
    by rewrite (bool_decide_true (Some now = Some now)).
  - rewrite (bool_decide_false (Some now = last)) by done.
    rewrite (bool_decide_true (Some now = Some now)) by done.
    by rewrite (bool_decide_false (Some now = Some (now + 1))) by (intros [=]; lia).
Qed.

End TimeFilenameFacts.

(** ** Search: the terms handed to the full-text index *)

Lemma chars_append (a b : string) : chars (a +:+ b) = chars a ++ chars b.
Proof. induction a as [|c a IH]; simpl; [done|]. unfold chars in *. simpl. by rewrite IH. Qed.

Lemma chars_length (s : string) : length (chars s) = String.length s.
Proof. induction s as [|c s IH]; simpl; [done|]. unfold chars in *. simpl. by rewrite IH. Qed.

Lemma chars_toLowerCase (s : string) :
  chars (Js.toLowerCase s) = List.map Js.lower_ascii (chars s).
Proof. induction s as [|c s IH]; simpl; [done|]. unfold chars in *. simpl. by rewrite IH. Qed.

Lemma chars_replace_chars (cs : list ascii) (s : string) :
  chars (Js.replace_chars cs s)
  = List.map (λ c, if bool_decide (c ∈ cs) then " "%char else c) (chars s).
Proof. induction s as [|c s IH]; simpl; [done|]. unfold chars in *. simpl. by rewrite IH. Qed.

Lemma lower_ascii_not_upper (c : ascii) : is_upper (Js.lower_ascii c) = false.
Proof. by destruct c as [[] [] [] [] [] [] [] []]. Qed.

(** X11. A non-empty query is handed to the full-text index in lower case,
    with every [:], [^], [*] and [.] replaced by a space and one [*]
    appended: apart from that final star the terms contain none of the
    symbols and no upper-case ASCII letter, and for a query of ASCII
    characters they are as long as the query. *)
Theorem prepared_query_is_sanitized (q : string) :
  q ≠ "" →
  ∃ body,
    prepQuery (Some q) = Some (body +:+ "*")
    ∧ Forall (λ c, (c ∉ [":"; "^"; "*"; "."]%char) ∧ is_upper c = false) (chars body)
    ∧ (Forall (λ c, is_ascii c = true) (chars q) →
       String.length body = String.length q).
Proof.
  intros Hq. unfold prepQuery.
  destruct (String.eqb_spec q "") as [|_]; [done|]. simpl.
  eexists. split; [reflexivity|]. split.
  - rewrite chars_replace_chars, chars_toLowerCase, List.map_map.
    apply Forall_forall. intros c Hc%list_elem_of_In%in_map_iff.
    destruct Hc as (c0 & <- & _).
    case_bool_decide as Hin.
    + split; [|done]. rewrite !elem_of_cons, elem_of_nil.
      intros [|[|[|[|]]]]; done.
    + split; [done|apply lower_ascii_not_upper].
  - intros _. rewrite <- !chars_length, chars_replace_chars, chars_toLowerCase.
    by rewrite !length_map.
Qed.

Lemma prepared_query_witness :
  ∃ body,
    prepQuery (Some "Foo.Bar:*") = Some (body +:+ "*")
    ∧ Forall (λ c, (c ∉ [":"; "^"; "*"; "."]%char) ∧ is_upper c = false) (chars body)
    ∧ (Forall (λ c, is_ascii c = true) (chars "Foo.Bar:*") →
       String.length body = String.length "Foo.Bar:*").
Proof. exact (prepared_query_is_sanitized "Foo.Bar:*" ltac:(discriminate)). Defined.

Example prepared_query_example : prepQuery (Some "Foo.Bar:*") = Some "foo bar  *".
Proof. reflexivity. Qed.

(** ** Search: one result per URL *)

#[local] Set Warnings "-clear-no-such-hyp".


Section Dedup.

Context (db_all : string → QueryParams → list SearchRow).


End Dedup.

(** ** Search: the crawl sources for a number of hops *)

(** X13. For every [hops] that is a number (not [NaN]) the set of crawl
    sources is defined and starts with the user's own id; the ids that
    follow, if any, are those of all sources the user follows, and only
    such: a source is among them exactly when a row of [crawl_followgraph]
    of the user points to its url. *)
Theorem numeric_hops_give_user_and_followed (n : Js.number) (userCrawlSourceId : Z)
    (w : World) :
  n ≠ Js.NaN →
  ∃ followed,
    crawlSourceIds (clampHops (Some n)) userCrawlSourceId w
    = Some (userCrawlSourceId :: followed)
    ∧ (followed = [] ∨ followed = followedSourceIds userCrawlSourceId w)
    ∧ ∀ sid, sid ∈ followedSourceIds userCrawlSourceId w ↔
        ∃ src fgraph, src ∈ crawl_sources w ∧ fgraph ∈ crawl_followgraph w
          ∧ src_id src = sid ∧ fg_crawlSourceId fgraph = userCrawlSourceId
          ∧ fg_destUrl fgraph = src_url src.
Proof.
  intros Hn. unfold crawlSourceIds.
  destruct (Js.strict_eq (clampHops (Some n)) (Js.of_Z 2)) eqn:H2.
  - exists (followedSourceIds userCrawlSourceId w).
    split_and!; [done|by right|apply followedSourceIds_spec].
  - destruct (clampHops_number n Hn) as [H1|H2']; [|congruence].
    rewrite H1. exists []. split_and!; [done|by left|apply followedSourceIds_spec].
Qed.

Lemma numeric_hops_witness :
  ∃ followed,
    crawlSourceIds (clampHops (Some (Js.Finite (5 # 2)))) 7 fresh_world
    = Some (7 :: followed)
    ∧ (followed = [] ∨ followed = followedSourceIds 7 fresh_world)
    ∧ ∀ sid, sid ∈ followedSourceIds 7 fresh_world ↔
        ∃ src fgraph, src ∈ crawl_sources fresh_world
          ∧ fgraph ∈ crawl_followgraph fresh_world
          ∧ src_id src = sid ∧ fg_crawlSourceId fgraph = 7
          ∧ fg_destUrl fgraph = src_url src.
Proof.
  exact (numeric_hops_give_user_and_followed (Js.Finite (5 # 2)) 7 fresh_world
           ltac:(discriminate)).
Defined.

(** ** Search: only the datasets asked for *)

Lemma elem_of_slice0 {A} (n : Z) (l : list A) (x : A) : x ∈ Js.slice0 n l → x ∈ l.
Proof.
  unfold Js.slice0. destruct (0 <=? n); intros Hx;
    eapply elem_of_sublist; [exact Hx|apply sublist_take|exact Hx|apply sublist_take].
Qed.

Section Datasets.

Context (random_nonce : Z)
        (db_all : string → QueryParams → list SearchRow)
        (getBest : string → option string → SearchResult).

(** X14. Every result of a search is a user, a post or a site, and comes
    from a dataset that was asked for: with [datasets] given, a result of
    a dataset outside the list never appears. *)
Theorem search_returns_requested_datasets_only (opts : SearchOpts) (w : World)
    (found : SearchResults) :
  listSearchResults random_nonce db_all getBest opts w = Some found →
  highlightNonce found = random_nonce
  ∧ Forall (λ r,
        (resultType r = "user" ∧ dataset_requested (datasets opts) "followgraph" = true)
        ∨ (resultType r = "post" ∧ dataset_requested (datasets opts) "link_posts" = true)
        ∨ (resultType r = "site"
           ∧ dataset_requested (datasets opts) "published_sites" = true))
      (results found).
Proof.
  unfold listSearchResults.
  destruct (userCrawlSource (user opts) w) as [uid|]; [|done].
  intros [= <-]. simpl. split; [done|].
  apply Forall_forall. intros r Hr%elem_of_slice0.
  unfold Js.sort in Hr. rewrite merge_sort_Permutation in Hr.
  rewrite !elem_of_app in Hr. destruct Hr as [[Hr|Hr]|Hr].
  - unfold followgraphResults in Hr.
    destruct (dataset_requested (datasets opts) "followgraph"); [|by apply elem_of_nil in Hr].
    apply list_elem_of_In, in_map_iff in Hr as (x & <- & _). by left.
  - unfold linkPostResults in Hr.
    destruct (dataset_requested (datasets opts) "link_posts"); [|by apply elem_of_nil in Hr].
    apply list_elem_of_In, in_map_iff in Hr as (x & <- & _). right. by left.
  - unfold publishedSiteResults in Hr.
    destruct (dataset_requested (datasets opts) "published_sites");
      [|by apply elem_of_nil in Hr].
    apply list_elem_of_In, in_map_iff in Hr as (x & <- & _). right. by right.
Qed.

End Datasets.

Lemma requested_datasets_witness :
  Forall (λ r,
      (resultType r = "user" ∧ dataset_requested (datasets two_newest) "followgraph" = true)
      ∨ (resultType r = "post" ∧ dataset_requested (datasets two_newest) "link_posts" = true)
      ∨ (resultType r = "site"
         ∧ dataset_requested (datasets two_newest) "published_sites" = true))
    [mkSearchResult "post" "dat://alice/data/link/2.json" "B" "" 30;
     mkSearchResult "post" "dat://alice/data/link/3.json" "C" "" 20].
Proof.
  exact (proj2 (search_returns_requested_datasets_only 42 search_rows no_description
                  two_newest fresh_world _ search_two_newest)).
Defined.

(** ** Suggestions: what matches a query *)

Lemma prefix_chars (q s : string) (c : ascii) :
  String.prefix q s = true → c ∈ chars q → c ∈ chars s.
Proof.
  revert q. induction s as [|b s IH]; intros [|a q]; simpl.
  - by intros _ ?%elem_of_nil.
  - done.
  - by intros _ ?%elem_of_nil.
  - destruct (ascii_dec a b) as [->|]; [|done].
    intros Hp. unfold chars in *. simpl. rewrite !elem_of_cons.
    intros [->|Hc]; [by left|right; by eapply IH].
Qed.

Lemma includes_chars (s q : string) (c : ascii) :
  Js.includes s q = true → c ∈ chars q → c ∈ chars s.
Proof.
  induction s as [|b s IH]; cbn [Js.includes].
  - rewrite orb_false_r. apply prefix_chars.
  - intros [Hp|Hi]%orb_true_iff Hc; [by eapply (prefix_chars q (String b s))|].
    unfold chars in *. simpl. apply elem_of_cons. right. by apply IH.
Qed.

Lemma includes_empty (s : string) : Js.includes s "" = true.
Proof. by destruct s. Qed.

(** X15. A query with an upper-case letter never matches through a title:
    titles are compared in lower case and the query is not, so such a
    query matches an entry exactly when its link includes the query. *)
Theorem uppercase_query_matches_links_only (query link title : string) :
  Exists (λ c, is_upper c = true) (chars query) →
  Js.includes (Js.toLowerCase title) query = false
  ∧ filterFn query link title = Js.includes link query.
Proof.
  intros (c & Hc & Hup)%Exists_exists.
  assert (Js.includes (Js.toLowerCase title) query = false) as Hno.
  { destruct (Js.includes (Js.toLowerCase title) query) eqn:Hinc; [|done].
    pose proof (includes_chars _ _ c Hinc Hc) as Hin.
    rewrite chars_toLowerCase in Hin.
    apply list_elem_of_In, in_map_iff in Hin as (c0 & <- & _).
    by rewrite lower_ascii_not_upper in Hup. }
  split; [done|]. unfold filterFn. by rewrite Hno, orb_false_r.
Qed.

Lemma uppercase_query_witness :
  Js.includes (Js.toLowerCase "Bob's site") "Bob" = false
  ∧ filterFn "Bob" "dat://bob/" "Bob's site" = Js.includes "dat://bob/" "Bob".
Proof.
  apply (uppercase_query_matches_links_only "Bob" "dat://bob/" "Bob's site").
  apply Exists_cons_hd. reflexivity.
Defined.

Lemma filter_true {A} (p : A → bool) (l : list A) :
  (∀ x, p x = true) → List.filter p l = l.
Proof. intros Hp. induction l as [|x l IH]; simpl; [done|]. by rewrite Hp, IH. Qed.

Lemma filter_true_on {A} (p : A → bool) (l : list A) :
  Forall (λ x, p x = true) l → List.filter p l = l.
Proof. induction 1 as [|x l Hx _ IH]; simpl; [done|]. by rewrite Hx, IH. Qed.

Lemma sort_sorted {A} (cmp : A → A → Z) (R : relation A) (l : list A) :
  (∀ a b, cmp a b ≤ 0 ↔ R a b) → Transitive R → Total R →
  StronglySorted R (Js.sort cmp l).
Proof.
  intros Hrel Htrans Htotal.
  assert (StronglySorted (Js.keeps_order cmp) (Js.sort cmp l)) as Hs.
  { apply StronglySorted_merge_sort.
    - intros a b c. unfold Js.keeps_order. rewrite !Hrel. apply Htrans.
    - intros a b. unfold Js.keeps_order. rewrite !Hrel. apply Htotal. }
  induction Hs as [|a k _ IH Hall]; constructor; [done|].
  eapply Forall_impl; [exact Hall|]. intros b. unfold Js.keeps_order. by rewrite Hrel.
Qed.

Section MoreSuggestionFacts.

Context (getBasicType : list string → string)
        (savedArchives : list LibraryArchiveRecord)
        (listBookmarks : list Bookmark)
        (historyDb_search : string → list HistoryEntry).

Local Abbreviation listSuggestions' :=
  (listSuggestions getBasicType savedArchives listBookmarks historyDb_search).

(** X16. Without a query, or with the empty one, everything is suggested:
    all builtin pages and every saved archive, in the group of its basic
    type; bookmarks and history are left out. *)
Theorem empty_query_suggests_everything (filterPins : bool) :
  let all :=
    mkSuggestions BUILTIN_PAGES
      (grouped getBasicType savedArchives "user")
      (grouped getBasicType savedArchives "web-page")
      (grouped getBasicType savedArchives "file-share")
      (grouped getBasicType savedArchives "image-collection")
      (grouped getBasicType savedArchives "other")
      None None in
  listSuggestions' None filterPins = all ∧ listSuggestions' (Some "") filterPins = all.
Proof.
  cbv zeta. unfold listSuggestions, Js.filter; simpl.
  rewrite (filter_true _ savedArchives)
    by (intros a; unfold filterFn; by rewrite includes_empty).
  done.
Qed.

(** X17. For a non-empty query the history suggestions are the first 12
    entries that [historyDb.search] returns for the query, rearranged so
    that an entry never stands before one with a shorter url. *)
Theorem history_suggestions_shortest_url_first (q : string) (filterPins : bool) :
  q ≠ "" →
  ∃ l, history (listSuggestions getBasicType savedArchives listBookmarks historyDb_search
                  (Some q) filterPins) = Some l
    ∧ l ≡ₚ take 12 (historyDb_search q)
    ∧ StronglySorted
        (λ a b, (String.length (hist_url a) ≤ String.length (hist_url b))%nat) l.
Proof.
  intros Hq. unfold listSuggestions. simpl.
  destruct (String.eqb_spec q "") as [|_]; [done|]. simpl.
  eexists. split; [reflexivity|]. split.
  - apply sort_Permutation.
  - apply sort_sorted.
    + intros a b. lia.
    + intros a b c. lia.
    + intros a b. lia.
Qed.

(** X18. For a non-empty query the bookmark suggestions are taken from the
    bookmarks in their order, each with its title and href; every one of
    them matches the query and, with [filterPins], is not pinned; and when
    fewer than 12 are suggested no bookmark that qualifies is missing. *)
Theorem bookmark_suggestions_match (q : string) (filterPins : bool) :
  q ≠ "" →
  let qualifies b :=
    (if filterPins then negb (bm_pinned b) else true)
    && filterFn q (bm_href b) (bm_title b) in
  ∃ bs, bookmarks (listSuggestions' (Some q) filterPins)
        = Some (List.map (λ b, mkBookmarkSuggestion (bm_title b) (bm_href b)) bs)
    ∧ bs `sublist_of` listBookmarks
    ∧ Forall (λ b, qualifies b = true) bs
    ∧ ((length bs < 12)%nat → ∀ b, b ∈ listBookmarks → qualifies b = true → b ∈ bs).
Proof.
  intros Hq. cbv zeta. unfold listSuggestions. simpl.
  destruct (String.eqb_spec q "") as [|_]; [done|]. simpl.
  set (qualifies := λ b, (if filterPins then negb (bm_pinned b) else true)
                         && filterFn q (bm_href b) (bm_title b)).
  assert ((if filterPins
           then Js.filter (λ b, negb (bm_pinned b) && filterFn q (bm_href b) (bm_title b))
                  listBookmarks
           else Js.filter (λ b, filterFn q (bm_href b) (bm_title b)) listBookmarks)
          = List.filter qualifies listBookmarks) as ->.
  { subst qualifies. by destruct filterPins. }
  exists (Js.slice0 12 (List.filter qualifies listBookmarks)).
  split; [done|]. rewrite slice0_take by lia.
  assert (List.filter qualifies listBookmarks `sublist_of` listBookmarks) as Hsub.
  { clear. induction listBookmarks as [|b l IH]; simpl; [done|].
    destruct (qualifies b); by constructor. }
  split_and!.
  - etrans; [apply sublist_take|exact Hsub].
  - apply Forall_forall. intros b Hb.
    eapply elem_of_sublist in Hb; [|apply sublist_take].
    by apply list_elem_of_In, filter_In in Hb as [_ ?].
  - intros Hlen b Hb Hqual.
    rewrite take_ge.
    + apply list_elem_of_In, filter_In. split; [by apply list_elem_of_In|done].
    + rewrite length_take in Hlen. lia.
Qed.

End MoreSuggestionFacts.

Lemma history_suggestions_witness :
  ∃ l, history (listSuggestions (λ _, "other") []
                  [mkBookmark "dat://bob/" "Bob" true;
                   mkBookmark "dat://bobby/" "Bobby" false]
                  (λ q, [mkHistory "dat://bob/long/path" "Bob"; mkHistory "dat://bob/" "Bob"])
                  (Some "bob") true) = Some l
    ∧ l ≡ₚ take 12 [mkHistory "dat://bob/long/path" "Bob"; mkHistory "dat://bob/" "Bob"]
    ∧ StronglySorted
        (λ a b, (String.length (hist_url a) ≤ String.length (hist_url b))%nat) l.
Proof.
  exact (history_suggestions_shortest_url_first (λ _, "other") []
           [mkBookmark "dat://bob/" "Bob" true; mkBookmark "dat://bobby/" "Bobby" false]
           (λ q, [mkHistory "dat://bob/long/path" "Bob"; mkHistory "dat://bob/" "Bob"])
           "bob" true ltac:(discriminate)).
Defined.

Lemma bookmark_suggestions_witness :
  ∃ bs, bookmarks (listSuggestions (λ _, "other") []
                     [mkBookmark "dat://bob/" "Bob" true;
                      mkBookmark "dat://bobby/" "Bobby" false]
                     (λ q, []) (Some "bob") true)
        = Some (List.map (λ b, mkBookmarkSuggestion (bm_title b) (bm_href b)) bs)
    ∧ bs `sublist_of` [mkBookmark "dat://bob/" "Bob" true;
                       mkBookmark "dat://bobby/" "Bobby" false].
Proof.
  destruct (bookmark_suggestions_match (λ _, "other") []
              [mkBookmark "dat://bob/" "Bob" true; mkBookmark "dat://bobby/" "Bobby" false]
              (λ q, []) "bob" true ltac:(discriminate)) as (bs & Hbs & Hsub & _).
  exists bs. by split.
Defined.

(** ** Thumbnails *)

Lemma prefix_append (a b : string) : String.prefix a (a +:+ b) = true.
Proof.
  induction a as [|c a IH]; simpl; [by destruct b|].
  by destruct (ascii_dec c c).
Qed.

Lemma length_append (a b : string) :
  String.length (a +:+ b) = (String.length a + String.length b)%nat.
Proof. induction a as [|c a IH]; simpl; [done|]. by rewrite IH. Qed.

Lemma substring_all (b : string) : String.substring 0 (String.length b) b = b.
Proof. induction b as [|c b IH]; simpl; [done|]. by rewrite IH. Qed.

Lemma substring_append (a b : string) :
  String.substring (String.length a) (String.length b) (a +:+ b) = b.
Proof. induction a as [|c a IH]; simpl; [apply substring_all|done]. Qed.

Lemma endsWith_append (a b : string) : Js.endsWith (a +:+ b) b = true.
Proof.
  unfold Js.endsWith. rewrite length_append.
  replace (String.length a + String.length b - String.length b)%nat
    with (String.length a) by lia.
  rewrite substring_append, String.eqb_refl, andb_true_r.
  apply Nat.leb_le. lia.
Qed.

Lemma append_assoc (a b c : string) : (a +:+ b) +:+ c = a +:+ (b +:+ c).
Proof.
  induction a as [|x a IH]; [done|].
  change (String x ((a +:+ b) +:+ c) = String x (a +:+ b +:+ c)). by rewrite IH.
Qed.

Section ThumbnailFacts.

Context (URL_hostname : string → option string).

Local Abbreviation thumbnail := (getSiteDescriptionThumbnailUrl URL_hostname).

(** X19. The thumbnail of a site description is always a file named
    [thumb] under the author's url. For a self-description it is
    [author/thumb] and the subject is not parsed; otherwise the call fails
    exactly when the subject has no hostname. *)
Theorem thumbnail_is_under_the_author (author subject : string) :
  thumbnail author author = Some (author +:+ "/thumb")
  ∧ (∀ t, thumbnail author subject = Some t →
          String.prefix author t = true ∧ Js.endsWith t "/thumb" = true)
  ∧ (thumbnail author subject = None ↔ author ≠ subject ∧ URL_hostname subject = None).
Proof.
  unfold getSiteDescriptionThumbnailUrl, toHostname. split_and!.
  - by rewrite String.eqb_refl.
  - intros t. destruct (String.eqb_spec author subject) as [->|Hne].
    + intros [= <-]. split; [apply prefix_append|apply endsWith_append].
    + destruct (URL_hostname subject) as [h|]; simpl; [|done].
      intros [= <-]. split.
      * apply prefix_append.
      * rewrite <- !append_assoc. apply endsWith_append.
  - destruct (String.eqb_spec author subject) as [->|Hne].
    + split; [done|]. by intros [? _].
    + destruct (URL_hostname subject); simpl; split; try done. by intros [_ ?].
Qed.

End ThumbnailFacts.

(** ** Bookmarks: tags *)

Lemma append_cons (c : ascii) (a b : string) : String c a +:+ b = String c (a +:+ b).
Proof. reflexivity. Qed.

Lemma split_on_cons (sep c : ascii) (s : string) :
  c ≠ sep →
  ∃ piece pieces, split_on sep s = piece :: pieces
                  ∧ split_on sep (String c s) = String c piece :: pieces.
Proof.
  intros Hc. cbn [split_on]. rewrite (proj2 (Ascii.eqb_neq c sep) Hc).
  destruct (split_on sep s) as [|piece pieces] eqn:Hs.
  - destruct s as [|d s]; simpl in Hs; [done|].
    destruct (Ascii.eqb d sep); [done|]. by destruct (split_on sep s).
  - by exists piece, pieces.
Qed.

Lemma split_on_pieces (sep : ascii) (s : string) :
  Forall (λ t, sep ∉ chars t) (split_on sep s).
Proof.
  induction s as [|c s IH]; cbn [split_on].
  - repeat constructor. by intros ?%elem_of_nil.
  - destruct (Ascii.eqb_spec c sep) as [->|Hc].
    + constructor; [by intros ?%elem_of_nil|done].
    + destruct (split_on sep s) as [|piece pieces]; [|].
      * repeat constructor. unfold chars; simpl.
        rewrite elem_of_cons, elem_of_nil. naive_solver.
      * apply Forall_cons in IH as [Hp Hps]. constructor; [|done].
        unfold chars in *; simpl. rewrite elem_of_cons. naive_solver.
Qed.

Lemma split_on_none (sep : ascii) (t : string) :
  sep ∉ chars t → split_on sep t = [t].
Proof.
  induction t as [|c t IH]; [done|]. intros Hn.
  assert (c ≠ sep ∧ sep ∉ chars t) as [Hc Ht].
  { unfold chars in *; simpl in Hn. rewrite elem_of_cons in Hn. naive_solver. }
  destruct (split_on_cons sep c t) as (piece & pieces & Hs & ->); [done|].
  rewrite IH in Hs by done. by injection Hs as <- <-.
Qed.

Lemma split_on_app (sep : ascii) (t rest : string) :
  sep ∉ chars t →
  split_on sep (t +:+ String sep rest) = t :: split_on sep rest.
Proof.
  induction t as [|c t IH].
  - intros _. change ("" +:+ String sep rest) with (String sep rest).
    cbn [split_on]. by rewrite Ascii.eqb_refl.
  - intros Hn.
    assert (c ≠ sep ∧ sep ∉ chars t) as [Hc Ht].
    { unfold chars in *; simpl in Hn. rewrite elem_of_cons in Hn. naive_solver. }
    rewrite append_cons.
    destruct (split_on_cons sep c (t +:+ String sep rest))
      as (piece & pieces & Hs & ->); [done|].
    rewrite IH in Hs by done. by injection Hs as <- <-.
Qed.

Lemma split_on_join (sep : ascii) (l : list string) :
  l ≠ [] → Forall (λ t, sep ∉ chars t) l →
  split_on sep (join (String sep "") l) = l.
Proof.
  intros Hl Hall. induction Hall as [|t l Ht Hall IH]; [done|].
  destruct l as [|t' l]; [by apply split_on_none|].
  change (join (String sep "") (t :: t' :: l))
    with (t +:+ String sep "" +:+ join (String sep "") (t' :: l)).
  change (String sep "" +:+ join (String sep "") (t' :: l))
    with (String sep (join (String sep "") (t' :: l))).
  rewrite split_on_app by done. by rewrite IH.
Qed.

Lemma join_nonempty (sep : string) (l : list string) :
  l ≠ [] → Forall (λ t, t ≠ "") l → join sep l ≠ "".
Proof.
  intros Hl Hall. destruct Hall as [|t l Ht Hall]; [done|].
  destruct t as [|c t]; [done|]. by destruct l.
Qed.

(** X20. Tags given to a bookmark as an array come back as the same array:
    [toNewFormat] of a row whose [tags] column holds [tagsToString] of the
    array returns the tags in their order, provided that no tag is empty
    or contains a space. *)
Theorem bookmark_tags_round_trip (tags : list string) (row : BookmarkRow) :
  Forall (λ t, t ≠ "" ∧ " "%char ∉ chars t) tags →
  bmrow_tags row = Some (tagsToString (TagArray tags)) →
  bookmark_tags <$> toNewFormat (Some row) = Some tags.
Proof.
  intros Hall Hrow. unfold toNewFormat.
  cbn [fmap option_fmap option_map bookmark_tags]. rewrite Hrow.
  cbn [tagsToString]. f_equal.
  destruct tags as [|t tags]; [done|].
  assert (join " " (t :: tags) ≠ "") as Hne.
  { apply join_nonempty; [done|]. eapply Forall_impl; [exact Hall|]. by intros ? [? _]. }
  destruct (String.eqb_spec (join " " (t :: tags)) ""); [done|]. cbn [negb].
  rewrite (split_on_join " "%char (t :: tags)); [|done|].
  - apply filter_true_on. eapply Forall_impl; [exact Hall|].
    intros x [Hx _]. by destruct (String.eqb_spec x "").
  - eapply Forall_impl; [exact Hall|]. by intros ? [_ ?].
Qed.

Lemma bookmark_tags_witness :
  bookmark_tags <$> toNewFormat (Some (mkBookmarkRow 0 "dat://bob/" "Bob"
                                         (Some "p2p friends") 1 2 1546300800))
  = Some ["p2p"; "friends"].
Proof.
  apply (bookmark_tags_round_trip ["p2p"; "friends"]
           (mkBookmarkRow 0 "dat://bob/" "Bob" (Some "p2p friends") 1 2 1546300800)).
  - repeat constructor; try discriminate;
      unfold chars; simpl; rewrite !elem_of_cons, elem_of_nil; naive_solver.
  - reflexivity.
Defined.

(** X21. Whatever the [tags] column of a row holds, the bookmark made of
    the row has no empty tag and no tag with a space in it; its
    [createdAt] is the row's, in milliseconds, and it is pinned exactly
    when the column [pinned] is not 0. *)
Theorem bookmark_tags_are_clean (row : BookmarkRow) :
  ∃ b, toNewFormat (Some row) = Some b
    ∧ Forall (λ t, t ≠ "" ∧ " "%char ∉ chars t) (bookmark_tags b)
    ∧ bookmark_createdAt b = bmrow_createdAt row * 1000
    ∧ (bookmark_pinned b = true ↔ bmrow_pinned row ≠ 0).
Proof.
  eexists. split; [reflexivity|]. simpl. split_and!; [|done|].
  - destruct (bmrow_tags row) as [tags|]; [|constructor].
    destruct (String.eqb tags ""); simpl; [constructor|].
    apply Forall_forall. intros t Ht%list_elem_of_In%filter_In.
    destruct Ht as [Hin Hne]. split.
    + by destruct (String.eqb_spec t "").
    + pose proof (split_on_pieces " "%char tags) as Hall.
      rewrite Forall_forall in Hall. by apply Hall, list_elem_of_In.
  - rewrite negb_true_iff. by destruct (Z.eqb_spec (bmrow_pinned row) 0).
Qed.

(** ** Bookmarks: the list of tags and the pin order *)

Lemma add_tags_spec (l tagSet : list string) :
  NoDup tagSet →
  let out := fold_left (λ tagSet t, if bool_decide (t ∈ tagSet) then tagSet
                                    else tagSet ++ [t]) l tagSet in
  NoDup out ∧ ∀ x, x ∈ out ↔ x ∈ tagSet ∨ x ∈ l.
Proof.
  revert tagSet. induction l as [|t l IH]; intros tagSet Hnd; simpl.
  - split; [done|]. intros x. rewrite elem_of_nil. naive_solver.
  - case_bool_decide as Ht.
    + destruct (IH tagSet Hnd) as [Hnd' Hin]. split; [done|].
      intros x. rewrite Hin, elem_of_cons. naive_solver.
    + destruct (IH (tagSet ++ [t])) as [Hnd' Hin].
      { apply NoDup_app. split_and!; [done| |apply NoDup_singleton].
        intros x Hx ->%list_elem_of_singleton. done. }
      split; [done|]. intros x.
      rewrite Hin, elem_of_app, list_elem_of_singleton, elem_of_cons. naive_solver.
Qed.

Lemma listBookmarkTags_fold (rows : list BookmarkRow) (tagSet : list string) :
  NoDup tagSet →
  let out :=
    fold_left
      (λ tagSet b,
         match bmrow_tags b with
         | Some tags =>
             if negb (String.eqb tags "")
             then fold_left (λ tagSet t, if bool_decide (t ∈ tagSet) then tagSet
                                         else tagSet ++ [t])
                            (split_on " " tags) tagSet
             else tagSet
         | None => tagSet
         end)
      rows tagSet in
  NoDup out
  ∧ ∀ x, x ∈ out ↔
         x ∈ tagSet
         ∨ ∃ b tags, b ∈ rows ∧ bmrow_tags b = Some tags ∧ tags ≠ ""
                     ∧ x ∈ split_on " " tags.
Proof.
  revert tagSet. induction rows as [|b rows IH]; intros tagSet Hnd; simpl.
  - split; [done|]. intros x. split; [by left|].
    intros [?|(b & tags & []%elem_of_nil & _)]. done.
  - destruct (bmrow_tags b) as [tags|] eqn:Htags.
    + destruct (String.eqb_spec tags "") as [->|Hne]; simpl.
      * destruct (IH tagSet Hnd) as [Hnd' Hin]. split; [done|].
        intros x. rewrite Hin. split.
        -- intros [?|(b' & tags' & ? & ?)]; [by left|].
           right. exists b', tags'. rewrite elem_of_cons. naive_solver.
        -- intros [?|(b' & tags' & [->|?]%elem_of_cons & ? & ? & ?)];
             [by left|congruence|].
           right. by exists b', tags'.
      * destruct (add_tags_spec (split_on " " tags) tagSet Hnd) as [Hnd1 Hin1].
        destruct (IH _ Hnd1) as [Hnd' Hin]. split; [done|].
        intros x. rewrite Hin, Hin1. split.
        -- intros [[?|?]|(b' & tags' & ? & ?)]; [by left| |].
           ++ right. exists b, tags. rewrite elem_of_cons. naive_solver.
           ++ right. exists b', tags'. rewrite elem_of_cons. naive_solver.
        -- intros [?|(b' & tags' & [->|?]%elem_of_cons & Ht & ? & ?)]; [by left; left| |].
           ++ left; right. congruence.
           ++ right. by exists b', tags'.
    + destruct (IH tagSet Hnd) as [Hnd' Hin]. split; [done|].
      intros x. rewrite Hin. split.
      * intros [?|(b' & tags' & ? & ?)]; [by left|].
        right. exists b', tags'. rewrite elem_of_cons. naive_solver.
      * intros [?|(b' & tags' & [->|?]%elem_of_cons & ? & ? & ?)];
          [by left|congruence|].
        right. by exists b', tags'.
Qed.

(** X22. [listBookmarkTags] lists no tag twice, and it lists exactly the
    pieces between the spaces of the non-empty [tags] columns of the
    profile's bookmarks: no tag of another profile, and, as nothing
    filters the pieces here, also the empty piece of a doubled, leading or
    trailing space. *)
Theorem listed_tags_are_the_profiles (profileId : Z) (bookmarks : list BookmarkRow) :
  NoDup (listBookmarkTags profileId bookmarks)
  ∧ ∀ t, t ∈ listBookmarkTags profileId bookmarks ↔
         ∃ b tags, b ∈ bookmarks ∧ bmrow_profileId b = profileId
                   ∧ bmrow_tags b = Some tags ∧ tags ≠ ""
                   ∧ t ∈ split_on " " tags.
Proof.
  unfold listBookmarkTags.
  destruct (listBookmarkTags_fold
              (Js.filter (λ b, bmrow_profileId b =? profileId) bookmarks) [])
    as [Hnd Hin]; [constructor|].
  split; [done|]. intros t. rewrite Hin. split.
  - intros [[]%elem_of_nil|(b & tags & Hb%list_elem_of_In%filter_In & ?)].
    destruct Hb as [Hb Hp%Z.eqb_eq]. exists b, tags.
    split; [by apply list_elem_of_In|]. naive_solver.
  - intros (b & tags & Hb & Hp & ?). right. exists b, tags. split; [|done].
    apply list_elem_of_In, filter_In. split; [by apply list_elem_of_In|].
    by apply Z.eqb_eq.
Qed.

Lemma setBookmarkPinOrder_from_spec (len profileId : Z) (urls : list string) :
  NoDup urls →
  ∀ (i : Z) (bookmarks : list BookmarkRow),
    Forall2 (λ b b',
               (bmrow_profileId b = profileId →
                ∀ j : nat, urls !! j = Some (bmrow_url b) →
                           b' = with_pinOrder b (len - (i + Z.of_nat j)))
               ∧ (bmrow_profileId b ≠ profileId ∨ bmrow_url b ∉ urls → b' = b))
            bookmarks (setBookmarkPinOrder_from len i profileId urls bookmarks).
Proof.
  induction urls as [|url rest IH]; intros Hnd i bookmarks.
  - simpl. apply Forall2_same_length_lookup_2; [done|].
    intros k b b' Hb Hb'. split; [intros _ j Hj; by rewrite lookup_nil in Hj|congruence].
  - apply NoDup_cons in Hnd as [Hurl Hnd]. cbn [setBookmarkPinOrder_from].
    match goal with
    | |- context [List.map ?f bookmarks] =>
        pose proof (IH Hnd (i + 1) (f <$> bookmarks)) as Hrest
    end.
    apply Forall2_fmap_l in Hrest. eapply Forall2_impl; [exact Hrest|].
    intros b b' [Hset Hkeep]. cbn beta in Hset, Hkeep.
    destruct (Z.eqb_spec (bmrow_profileId b) profileId) as [Hp|Hp];
      [destruct (String.eqb_spec (bmrow_url b) url) as [Hu|Hu]|]; cbn [andb] in *.
    + cbn [bmrow_profileId bmrow_url] in *.
      assert (b' = with_pinOrder b (len - i)) as -> by (apply Hkeep; right; by rewrite Hu).
      split.
      * intros _ [|j] Hj; [f_equal; lia|].
        cbn in Hj. apply list_elem_of_lookup_2 in Hj. by rewrite Hu in Hj.
      * intros [?|Hn]; [done|]. rewrite elem_of_cons in Hn. naive_solver.
    + split.
      * intros _ [|j] Hj; [cbn in Hj; congruence|].
        cbn in Hj. rewrite (Hset Hp j Hj). f_equal. lia.
      * intros [?|Hn]; [done|]. rewrite elem_of_cons in Hn. apply Hkeep. naive_solver.
    + split; [done|]. intros _. apply Hkeep. by left.
Qed.

(** X23. [setBookmarkPinOrder(profileId, urls)] with [urls] free of
    repetitions: a bookmark of the profile whose url is at index [j] of
    [urls] gets [pinOrder = urls.length - j] and keeps its other columns,
    and every other row (of another profile, or with a url that is not
    listed) is left as it is. No row is added or removed. *)
Theorem pin_order_counts_down_from_length (profileId : Z) (urls : list string)
    (bookmarks : list BookmarkRow) :
  NoDup urls →
  Forall2 (λ b b',
             (bmrow_profileId b = profileId →
              ∀ j : nat, urls !! j = Some (bmrow_url b) →
                         b' = with_pinOrder b (Z.of_nat (length urls) - Z.of_nat j))
             ∧ (bmrow_profileId b ≠ profileId ∨ bmrow_url b ∉ urls → b' = b))
          bookmarks (setBookmarkPinOrder profileId urls bookmarks).
Proof.
  intros Hnd. unfold setBookmarkPinOrder.
  eapply Forall2_impl; [by apply setBookmarkPinOrder_from_spec|].
  intros b b' [Hset Hkeep]. split; [|done].
  intros Hp j Hj. rewrite (Hset Hp j Hj). f_equal.
Qed.

Lemma pin_order_witness :
  Forall2 (λ b b',
             (bmrow_profileId b = 0 →
              ∀ j : nat, ["dat://bob/"; "dat://carol/"] !! j = Some (bmrow_url b) →
                         b' = with_pinOrder b (2 - Z.of_nat j))
             ∧ (bmrow_profileId b ≠ 0 ∨ bmrow_url b ∉ ["dat://bob/"; "dat://carol/"] → b' = b))
          [mkBookmarkRow 0 "dat://carol/" "Carol" None 1 0 10;
           mkBookmarkRow 1 "dat://bob/" "Bob" None 1 7 20]
          (setBookmarkPinOrder 0 ["dat://bob/"; "dat://carol/"]
             [mkBookmarkRow 0 "dat://carol/" "Carol" None 1 0 10;
              mkBookmarkRow 1 "dat://bob/" "Bob" None 1 7 20]).
Proof.
  apply (pin_order_counts_down_from_length 0 ["dat://bob/"; "dat://carol/"]).
  apply (bool_decide_unpack _). vm_compute. reflexivity.
Defined.

(** ** The query of [posts.list] *)

Lemma placeholders_append (a b : string) :
  placeholders (a +:+ b) = (placeholders a + placeholders b)%nat.
Proof. unfold placeholders. by rewrite chars_append, List.filter_app, length_app. Qed.

Lemma list_query_authors (l : list string) (query : string) (values : list SqlValue)
    (op : string) :
  placeholders op = 0%nat →
  let out := fold_left (λ '(query, values, op) a,
                          (query +:+ " " +:+ op +:+ " src.url = ?",
                           values ++ [SqlText a], "OR"))
                       l (query, values, op) in
  placeholders out.1.1 = (placeholders query + length l)%nat
  ∧ out.1.2 = values ++ (SqlText <$> l).
Proof.
  revert query values op. induction l as [|a l IH]; intros query values op Hop.
  - simpl. split; [lia|by rewrite app_nil_r].
  - cbn [fold_left]. destruct (IH (query +:+ " " +:+ op +:+ " src.url = ?")
                                 (values ++ [SqlText a]) "OR" eq_refl) as [Hq Hv].
    cbv zeta. rewrite Hq, Hv. rewrite !placeholders_append, Hop.
    split; [cbn; lia|]. by rewrite <- app_assoc.
Qed.

Section PostsListFacts.

Variable toOrigin : string → option string.

(** X24. The query that [list] builds binds every placeholder: whenever it
    does not throw, the text handed to [db.all] has exactly as many [?] as
    there are values, whatever the authors, the limit, the offset and the
    order asked for. *)
Theorem list_query_binds_every_placeholder (offset limit : option Z) (reverse : bool)
    (author : option string) (authors : option (list string))
    (query : string) (values : list SqlValue) :
  list_query toOrigin offset limit reverse author authors = Some (query, values) →
  placeholders query = length values.
Proof.
  unfold list_query.
  generalize (match author with
              | Some a => if negb (String.eqb a "")
                          then Some (default [] authors ++ [a]) else authors
              | None => authors
              end).
  intros all.
  destruct (match all with
            | Some l => Some <$> mapM toOrigin l
            | None => Some None
            end) as [origins|]; [|done].
  cbn [mbind option_bind].
  match goal with
  | |- context [fold_left ?f ?l (?q, ?v, ?op)] =>
      destruct (list_query_authors l q v op eq_refl) as [Hq Hv];
      destruct (fold_left f l (q, v, op)) as [[q1 v1] op1]
  end.
  cbn [fst snd] in Hq, Hv. subst v1.
  intros Hsome.
  assert (placeholders q1 = length (SqlText <$> default [] origins)) as Hq1.
  { rewrite Hq, length_fmap. reflexivity. }
  clear Hq. revert Hsome.
  destruct reverse, limit as [l|], offset as [o|];
    try destruct (Z.eqb_spec l 0); try destruct (Z.eqb_spec o 0); cbn [negb];
    intros [= <- <-]; rewrite ?placeholders_append, ?length_app, Hq1; cbn; lia.
Qed.

End PostsListFacts.

Lemma list_query_witness :
  placeholders
    (String (ascii_of_nat 10) "" +:+
     "    SELECT crawl_posts.*, src.url AS crawlSourceUrl FROM crawl_posts" +:+
     String (ascii_of_nat 10) "" +:+
     "      INNER JOIN crawl_sources src ON src.id = crawl_posts.crawlSourceId" +:+
     String (ascii_of_nat 10) "" +:+
     "   WHERE src.url = ? OR src.url = ? ORDER BY createdAt DESC LIMIT ?")
  = 3%nat.
Proof.
  apply (list_query_binds_every_placeholder Some None (Some 10) true
           (Some "dat://alice") (Some ["dat://bob"]) _
           [SqlText "dat://bob"; SqlText "dat://alice"; SqlNumber 10]).
  reflexivity.
Defined.
